(** * WebAuthn login ceremony: [BeginLogin], [FinishLogin] and
    [CollectedClientData.Verify]

    A shallow embedding of [webauthn/login.go] and of the client-data verifier
    of package [protocol], together with the parts of the Go standard library
    they call ([encoding/base64], [net/url], [bytes]).

    Go values are modelled as follows.
    - [string] is [string]: a sequence of 8-bit characters, as in Go.
    - [[]byte] passed by value and only read is [list byte].
    - [[]byte] that is shared between two structures is a [slice] into a
      store of arrays (see [Module Memory]).
    - [error] results are [option Error]; [None] is Go's [nil].
    - a run-time panic (index out of range) is an explicit [Panics]. *)

From Stdlib Require Import ZArith NArith Strings.Byte Strings.Ascii Strings.String.
From stdpp Require Import base decidable option list strings gmap.

Local Open Scope string_scope.
Local Open Scope list_scope.

(** ** Bytes and strings *)

#[global] Instance byte_eq_dec : EqDecision byte := Byte.byte_eq_dec.

Definition byte_of_char (a : ascii) : byte := byte_of_ascii a.
Definition char_of_byte (b : byte) : ascii := ascii_of_byte b.

(** [[]byte(s)] and [string(b)]. *)
Definition bytes_of_string (s : string) : list byte := list_byte_of_string s.
Definition string_of_bytes (b : list byte) : string := string_of_list_byte b.

(** [byte(v)] for an unsigned [v]: the low eight bits. *)
Definition byte_of_uint (v : N) : byte :=
  default x00 (Byte.of_N (N.land v 255)).

Definition uint_of_byte (b : byte) : N := Byte.to_N b.

(** [make([]byte, n)]: [n] zero bytes. *)
Definition make (n : nat) : list byte := replicate n x00.

(** [bytes.Equal]. *)
Definition bytes_Equal (a b : list byte) : bool := bool_decide (a = b).

(** Go's [if err != nil { return ..., err }] chains, on [E + A]. *)
#[global] Instance sum_bind {E : Type} : MBind (sum E) :=
  fun A B f x => match x with inl e => inl e | inr a => f a end.

#[global] Instance sum_fmap {E : Type} : FMap (sum E) :=
  fun A B f x => match x with inl e => inl e | inr a => inr (f a) end.

(** ** Panics *)

Inductive Completion (A : Type) : Type :=
  | Returns (a : A)
  | Panics.
Arguments Returns {A} a.
Arguments Panics {A}.

(** [dst[i] = b]; an index outside [dst] is a run-time panic, here [None]. *)
Definition store (dst : list byte) (i : nat) (b : byte) : option (list byte) :=
  if decide (i < length dst) then Some (<[i := b]> dst) else None.

(** ** encoding/base64 *)

Module base64.

Definition encodeStd : string :=
  "ABCDEFGHIJKLMNOPQRSTUVWXYZabcdefghijklmnopqrstuvwxyz0123456789+/".

Definition StdPadding : byte := "=".
Definition NoPadding : option byte := None.

(** An [Encoding]: the alphabet and the padding character ([None] is
    [NoPadding]).  Both encodings used here are non-strict. *)
Record Encoding : Type := {
  encode : string;
  padChar : option byte
}.

Definition StdEncoding : Encoding :=
  {| encode := encodeStd; padChar := Some StdPadding |}.
Definition RawStdEncoding : Encoding :=
  {| encode := encodeStd; padChar := NoPadding |}.

(** [enc.encode[v]], for [v < 64]. *)
Definition encodeAt (enc : Encoding) (v : N) : byte :=
  match String.get (N.to_nat v) (encode enc) with
  | Some a => byte_of_char a
  | None => x00
  end.

(** [enc.decodeMap[c]]: the position of [c] in the alphabet, [None] for
    the table's [0xFF]. *)
Fixpoint position (c : ascii) (alphabet : string) (i : N) : option N :=
  match alphabet with
  | EmptyString => None
  | String a rest =>
      if Ascii.eqb a c then Some i else position c rest (N.succ i)
  end.

Definition decodeMap (enc : Encoding) (c : byte) : option N :=
  position (char_of_byte c) (encode enc) 0.

(** [enc.EncodedLen(n)]. *)
Definition EncodedLen (enc : Encoding) (n : nat) : nat :=
  match padChar enc with
  | None => n / 3 * 4 + (n `mod` 3 * 8 + 5) / 6
  | Some _ => (n + 2) / 3 * 4
  end.

Definition sextet (val : N) (shift : N) : N :=
  N.land (N.shiftr val shift) 63.

(** The body of [Encode]: [src] is consumed three bytes at a time and four
    characters are stored from index [di] on; the tail of one or two bytes
    is padded when the encoding has a padding character. *)
Fixpoint encode_from (enc : Encoding) (dst : list byte) (di : nat)
    (src : list byte) : option (list byte) :=
  match src with
  | [] => Some dst
  | [b0] =>
      let val := N.shiftl (uint_of_byte b0) 16 in
      dst ← store dst (di + 0) (encodeAt enc (sextet val 18));
      dst ← store dst (di + 1) (encodeAt enc (sextet val 12));
      match padChar enc with
      | None => Some dst
      | Some pad =>
          dst ← store dst (di + 2) pad;
          store dst (di + 3) pad
      end
  | [b0; b1] =>
      let val := N.lor (N.shiftl (uint_of_byte b0) 16)
                       (N.shiftl (uint_of_byte b1) 8) in
      dst ← store dst (di + 0) (encodeAt enc (sextet val 18));
      dst ← store dst (di + 1) (encodeAt enc (sextet val 12));
      dst ← store dst (di + 2) (encodeAt enc (sextet val 6));
      match padChar enc with
      | None => Some dst
      | Some pad => store dst (di + 3) pad
      end
  | b0 :: b1 :: b2 :: rest =>
      let val := N.lor (N.lor (N.shiftl (uint_of_byte b0) 16)
                              (N.shiftl (uint_of_byte b1) 8))
                       (uint_of_byte b2) in
      dst ← store dst (di + 0) (encodeAt enc (sextet val 18));
      dst ← store dst (di + 1) (encodeAt enc (sextet val 12));
      dst ← store dst (di + 2) (encodeAt enc (sextet val 6));
      dst ← store dst (di + 3) (encodeAt enc (sextet val 0));
      encode_from enc dst (di + 4) rest
  end.

(** [enc.Encode(dst, src)]: the new contents of [dst], or [None] when a
    store falls outside [dst] (Go panics: index out of range). *)
Definition Encode (enc : Encoding) (dst src : list byte) : option (list byte) :=
  encode_from enc dst 0 src.

(** [CorruptInputError(n)]: the offset of the offending input byte. *)
Inductive CorruptInputError : Type := CorruptInput (offset : nat).

(** The bytes of one quantum of [dlen] characters ([dlen - 1] bytes);
    [q] holds the sextets read so far, missing ones count as zero. *)
Definition quantum_bytes (q : list N) : list byte :=
  let d (j : nat) : N := default 0%N (q !! j) in
  let val := N.lor (N.lor (N.lor (N.shiftl (d 0) 18) (N.shiftl (d 1) 12))
                          (N.shiftl (d 2) 6)) (d 3) in
  take (length q - 1)
    [byte_of_uint (N.shiftr val 16); byte_of_uint (N.shiftr val 8);
     byte_of_uint val].

Definition is_newline (c : byte) : bool :=
  bool_decide (c = x0a) || bool_decide (c = x0d).

(** [Decode] for an encoding without padding: the bytes decoded before the
    input ended or the first error, and that error.  [si] is the index of
    the next input byte and [q] the sextets of the current quantum. *)
Fixpoint decode_raw (enc : Encoding) (src : list byte) (si : nat) (q : list N)
    : list byte * option CorruptInputError :=
  match src with
  | [] =>
      match q with
      | [] => ([], None)
      | [_] => ([], Some (CorruptInput (si - 1)))
      | _ => (quantum_bytes q, None)
      end
  | c :: rest =>
      match decodeMap enc c with
      | Some out =>
          let q' := q ++ [out] in
          if decide (length q' = 4) then
            let '(tl, err) := decode_raw enc rest (S si) [] in
            (quantum_bytes q' ++ tl, err)
          else decode_raw enc rest (S si) q'
      | None =>
          if is_newline c then decode_raw enc rest (S si) q
          else ([], Some (CorruptInput si))
      end
  end.

(** [enc.DecodeString(s)] for [RawStdEncoding]; the slice returned with an
    error holds the bytes decoded so far. *)
Definition DecodeString (enc : Encoding) (s : string)
    : list byte * option CorruptInputError :=
  decode_raw enc (bytes_of_string s) 0 [].

End base64.

(** ** strings *)

Module Strings.

(** [s[:n]] and [s[n:]] (for [n <= len(s)]). *)
Fixpoint take (n : nat) (s : string) : string :=
  match n, s with
  | S n', String a s' => String a (take n' s')
  | _, _ => EmptyString
  end.

Fixpoint drop (n : nat) (s : string) : string :=
  match n, s with
  | S n', String _ s' => drop n' s'
  | _, _ => s
  end.

Definition HasPrefix (s prefix : string) : bool := String.prefix prefix s.

(** [strings.Index]: the first position where [substr] starts. *)
Fixpoint Index (s substr : string) : option nat :=
  if HasPrefix s substr then Some 0
  else match s with
       | EmptyString => None
       | String _ s' => S <$> Index s' substr
       end.

(** [strings.LastIndex]: the last position where [substr] starts. *)
Fixpoint LastIndex (s substr : string) : option nat :=
  match s with
  | EmptyString => if HasPrefix s substr then Some 0 else None
  | String _ s' =>
      match LastIndex s' substr with
      | Some i => Some (S i)
      | None => if HasPrefix s substr then Some 0 else None
      end
  end.

Definition Contains (s substr : string) : bool :=
  bool_decide (is_Some (Index s substr)).

(** [strings.Cut]: [(before, after, found)]. *)
Definition Cut (s sep : string) : string * string * bool :=
  match Index s sep with
  | Some i => (take i s, drop (i + String.length sep) s, true)
  | None => (s, EmptyString, false)
  end.

(** [strings.Count(s, c)] for a one-byte [c]. *)
Fixpoint CountByte (s : string) (c : ascii) : nat :=
  match s with
  | EmptyString => 0
  | String a s' => (if Ascii.eqb a c then 1 else 0) + CountByte s' c
  end.

(** [strings.HasSuffix(s, c)] for a one-byte [c]. *)
Fixpoint HasSuffixByte (s : string) (c : ascii) : bool :=
  match s with
  | EmptyString => false
  | String a EmptyString => Ascii.eqb a c
  | String _ s' => HasSuffixByte s' c
  end.

Definition between (lo hi c : ascii) : bool :=
  (nat_of_ascii lo <=? nat_of_ascii c)%nat && (nat_of_ascii c <=? nat_of_ascii hi)%nat.

Definition lower (c : ascii) : ascii :=
  if between "A" "Z" c then ascii_of_nat (nat_of_ascii c + 32) else c.

(** [strings.ToLower] on ASCII input. *)
Fixpoint ToLower (s : string) : string :=
  match s with
  | EmptyString => EmptyString
  | String a s' => String (lower a) (ToLower s')
  end.

Fixpoint all (p : ascii -> bool) (s : string) : bool :=
  match s with
  | EmptyString => true
  | String a s' => p a && all p s'
  end.

End Strings.

(** ** net/url *)

Module url.
Import Strings.

Inductive Error : Type :=
  | InvalidControlCharacter
  | MissingProtocolScheme
  | FirstPathSegmentColon
  | InvalidUserinfo
  | MissingBracket
  | InvalidPort (colonPort : string)
  | EscapeError (s : string)
  | InvalidHostError (s : string).

Record Userinfo : Type := {
  username : string;
  password : string;
  passwordSet : bool
}.

(** The fields of [url.URL] that [Parse] computes from the text; the two
    encoding hints [RawPath] and [RawFragment] are left out. *)
Record URL : Type := {
  Scheme : string;
  Opaque : string;
  User : option Userinfo;
  Host : string;
  Path : string;
  OmitHost : bool;
  ForceQuery : bool;
  RawQuery : string;
  Fragment : string
}.


Inductive encoding : Type :=
  | encodePath
  | encodePathSegment
  | encodeHost
  | encodeZone
  | encodeUserPassword
  | encodeQueryComponent
  | encodeFragment.

#[global] Instance encoding_eq_dec : EqDecision encoding.
Proof. solve_decision. Defined.

(** [c] is one of the bytes of [set] (a [switch c { case ... }]). *)
Definition oneOf (c : ascii) (set : string) : bool :=
  negb (all (fun a => negb (Ascii.eqb a c)) set).

Definition isalpha (c : ascii) : bool := between "a" "z" c || between "A" "Z" c.
Definition isdigit (c : ascii) : bool := between "0" "9" c.

Definition ishex (c : ascii) : bool :=
  between "0" "9" c || between "a" "f" c || between "A" "F" c.

Definition unhex (c : ascii) : nat :=
  if between "0" "9" c then nat_of_ascii c - nat_of_ascii "0"
  else if between "a" "f" c then nat_of_ascii c - nat_of_ascii "a" + 10
  else if between "A" "F" c then nat_of_ascii c - nat_of_ascii "A" + 10
  else 0.

(** [stringContainsCTLByte]. *)
Definition isCTL (c : ascii) : bool :=
  (nat_of_ascii c <? 32)%nat || (nat_of_ascii c =? 127)%nat.

Definition stringContainsCTLByte (s : string) : bool := negb (all (fun c => negb (isCTL c)) s).

(** [shouldEscape(c, mode)]. *)
Definition shouldEscape (c : ascii) (mode : encoding) : bool :=
  if isalpha c || isdigit c then false
  else if bool_decide (mode = encodeHost \/ mode = encodeZone)
          && (oneOf c "!$&'()*+,;=:[]<>" || Ascii.eqb c "034") then false
  else if oneOf c "-_.~" then false
  else if oneOf c "$&+,/:;=?@" then
    match mode with
    | encodePath => Ascii.eqb c "?"
    | encodePathSegment => oneOf c "/;,?"
    | encodeUserPassword => oneOf c "@/?:"
    | encodeQueryComponent => true
    | encodeFragment => false
    | _ => true
    end
  else if bool_decide (mode = encodeFragment) && oneOf c "!()*" then false
  else true.

Definition isPercent25 (h1 h2 : ascii) : bool := Ascii.eqb h1 "2" && Ascii.eqb h2 "5".

(** The first loop of [unescape]: every [%] is followed by two hex digits
    and, in a host or zone, only the bytes allowed there occur. *)
Fixpoint unescape_check (s : string) (mode : encoding) : option Error :=
  match s with
  | EmptyString => None
  | String c rest =>
      if Ascii.eqb c "%" then
        match rest with
        | String h1 (String h2 rest') =>
            if negb (ishex h1 && ishex h2) then Some (EscapeError (take 3 s))
            else if bool_decide (mode = encodeHost) && (unhex h1 <? 8)%nat
                    && negb (isPercent25 h1 h2)
            then Some (EscapeError (take 3 s))
            else if bool_decide (mode = encodeZone)
                    && negb (isPercent25 h1 h2)
                    && negb (unhex h1 * 16 + unhex h2 =? 32)%nat
                    && shouldEscape (ascii_of_nat (unhex h1 * 16 + unhex h2)) encodeHost
            then Some (EscapeError (take 3 s))
            else unescape_check rest' mode
        | _ => Some (EscapeError (take 3 s))
        end
      else if Ascii.eqb c "+" then unescape_check rest mode
      else if bool_decide (mode = encodeHost \/ mode = encodeZone)
              && (nat_of_ascii c <? 128)%nat && shouldEscape c encodeHost
      then Some (InvalidHostError (String c EmptyString))
      else unescape_check rest mode
  end.

(** The second loop of [unescape]: the text with its escapes replaced.  On
    a text without [%] (and without [+] in a query component) it is the
    identity, which is Go's early [return s, nil]. *)
Fixpoint unescape_text (s : string) (mode : encoding) : string :=
  match s with
  | EmptyString => EmptyString
  | String c rest =>
      if Ascii.eqb c "%" then
        match rest with
        | String h1 (String h2 rest') =>
            String (ascii_of_nat (unhex h1 * 16 + unhex h2)) (unescape_text rest' mode)
        | _ => EmptyString
        end
      else if Ascii.eqb c "+" then
        String (if bool_decide (mode = encodeQueryComponent) then " "%char else "+"%char)
               (unescape_text rest mode)
      else String c (unescape_text rest mode)
  end.

Definition unescape (s : string) (mode : encoding) : Error + string :=
  match unescape_check s mode with
  | Some e => inl e
  | None => inr (unescape_text s mode)
  end.

(** The loop of [getScheme]; [s] is [rawURL[i:]]. *)
Fixpoint getScheme_from (rawURL s : string) (i : nat) : Error + string * string :=
  match s with
  | EmptyString => inr (EmptyString, rawURL)
  | String c s' =>
      if isalpha c then getScheme_from rawURL s' (S i)
      else if isdigit c || oneOf c "+-." then
        if decide (i = 0) then inr (EmptyString, rawURL)
        else getScheme_from rawURL s' (S i)
      else if Ascii.eqb c ":" then
        if decide (i = 0) then inl MissingProtocolScheme
        else inr (take i rawURL, drop (i + 1) rawURL)
      else inr (EmptyString, rawURL)
  end.

Definition getScheme (rawURL : string) : Error + string * string :=
  getScheme_from rawURL rawURL 0.

Definition validOptionalPort (port : string) : bool :=
  match port with
  | EmptyString => true
  | String c digits => Ascii.eqb c ":" && all isdigit digits
  end.

Definition validUserinfo (s : string) : bool :=
  all (fun r => isalpha r || isdigit r || oneOf r "-._:~!$&'()*+,;=%@") s.

Definition parseHost (host : string) : Error + string :=
  if HasPrefix host "[" then
    match LastIndex host "]" with
    | None => inl MissingBracket
    | Some i =>
        let colonPort := drop (i + 1) host in
        if negb (validOptionalPort colonPort) then inl (InvalidPort colonPort)
        else
          match Index (take i host) "%25" with
          | Some zone =>
              host1 ← unescape (take zone host) encodeHost;
              host2 ← unescape (drop zone (take i host)) encodeZone;
              host3 ← unescape (drop i host) encodeHost;
              inr (host1 +:+ host2 +:+ host3)
          | None => unescape host encodeHost
          end
    end
  else
    match LastIndex host ":" with
    | Some i =>
        let colonPort := drop i host in
        if negb (validOptionalPort colonPort) then inl (InvalidPort colonPort)
        else unescape host encodeHost
    | None => unescape host encodeHost
    end.

Definition parseUserinfo (userinfo : string) : Error + Userinfo :=
  if negb (validUserinfo userinfo) then inl InvalidUserinfo
  else if negb (Contains userinfo ":") then
    u ← unescape userinfo encodeUserPassword;
    inr {| username := u; password := EmptyString; passwordSet := false |}
  else
    let '(name, pass, _) := Cut userinfo ":" in
    u ← unescape name encodeUserPassword;
    p ← unescape pass encodeUserPassword;
    inr {| username := u; password := p; passwordSet := true |}.

Definition parseAuthority (authority : string) : Error + option Userinfo * string :=
  match LastIndex authority "@" with
  | None =>
      host ← parseHost authority;
      inr (None, host)
  | Some i =>
      host ← parseHost (drop (i + 1) authority);
      user ← parseUserinfo (take i authority);
      inr (Some user, host)
  end.

(** [u.setPath(p)], without the [RawPath] hint. *)
Definition setPath (u : URL) (p : string) : Error + URL :=
  path ← unescape p encodePath;
  inr {| Scheme := Scheme u; Opaque := Opaque u; User := User u;
         Host := Host u; Path := path; OmitHost := OmitHost u;
         ForceQuery := ForceQuery u; RawQuery := RawQuery u;
         Fragment := Fragment u |}.

(** [u.setFragment(f)], without the [RawFragment] hint. *)
Definition setFragment (u : URL) (f : string) : Error + URL :=
  frag ← unescape f encodeFragment;
  inr {| Scheme := Scheme u; Opaque := Opaque u; User := User u;
         Host := Host u; Path := Path u; OmitHost := OmitHost u;
         ForceQuery := ForceQuery u; RawQuery := RawQuery u;
         Fragment := frag |}.

Definition nonempty (s : string) : bool :=
  match s with EmptyString => false | _ => true end.

(** [parse(rawURL, viaRequest)] with [viaRequest = false], as [Parse]
    calls it. *)
Definition parse (rawURL : string) : Error + URL :=
  if stringContainsCTLByte rawURL then inl InvalidControlCharacter
  else if bool_decide (rawURL = "*") then
    inr {| Scheme := EmptyString; Opaque := EmptyString; User := None;
           Host := EmptyString; Path := "*"; OmitHost := false;
           ForceQuery := false; RawQuery := EmptyString;
           Fragment := EmptyString |}
  else
    '(scheme, rest) ← getScheme rawURL;
    let scheme := ToLower scheme in
    let '(rest, rawQuery, forceQuery) :=
      if HasSuffixByte rest "?" && (CountByte rest "?" =? 1)%nat
      then (take (String.length rest - 1) rest, EmptyString, true)
      else let '(before, after, _) := Cut rest "?" in (before, after, false) in
    let u := {| Scheme := scheme; Opaque := EmptyString; User := None;
                Host := EmptyString; Path := EmptyString; OmitHost := false;
                ForceQuery := forceQuery; RawQuery := rawQuery;
                Fragment := EmptyString |} in
    if negb (HasPrefix rest "/") && nonempty scheme then
      inr {| Scheme := scheme; Opaque := rest; User := None;
             Host := EmptyString; Path := EmptyString; OmitHost := false;
             ForceQuery := forceQuery; RawQuery := rawQuery;
             Fragment := EmptyString |}
    else if negb (HasPrefix rest "/")
            && Contains (Cut rest "/").1.1 ":" then
      inl FirstPathSegmentColon
    else if (nonempty scheme || negb (HasPrefix rest "///"))
            && HasPrefix rest "//" then
      let authority := drop 2 rest in
      let '(authority, rest) :=
        match Index authority "/" with
        | Some i => (take i authority, drop i authority)
        | None => (authority, EmptyString)
        end in
      '(user, host) ← parseAuthority authority;
      setPath {| Scheme := scheme; Opaque := EmptyString; User := user;
                 Host := host; Path := EmptyString; OmitHost := false;
                 ForceQuery := forceQuery; RawQuery := rawQuery;
                 Fragment := EmptyString |} rest
    else
      setPath {| Scheme := scheme; Opaque := EmptyString; User := None;
                 Host := EmptyString; Path := EmptyString;
                 OmitHost := nonempty scheme && HasPrefix rest "/";
                 ForceQuery := forceQuery; RawQuery := rawQuery;
                 Fragment := EmptyString |} rest.

(** [url.Parse(rawURL)]. *)
Definition Parse (rawURL : string) : Error + URL :=
  let '(u, frag, _) := Cut rawURL "#" in
  url ← parse u;
  if nonempty frag then setFragment url frag else inr url.

(** [splitHostPort(hostPort)]. *)
Definition splitHostPort (hostPort : string) : string * string :=
  let '(host, port) :=
    match LastIndex hostPort ":" with
    | Some colon =>
        if validOptionalPort (drop colon hostPort)
        then (take colon hostPort, drop (colon + 1) hostPort)
        else (hostPort, EmptyString)
    | None => (hostPort, EmptyString)
    end in
  if HasPrefix host "[" && HasSuffixByte host "]"
  then (take (String.length host - 2) (drop 1 host), port)
  else (host, port).

(** [u.Hostname()] and [u.Port()]. *)
Definition Hostname (u : URL) : string := (splitHostPort (Host u)).1.
Definition Port (u : URL) : string := (splitHostPort (Host u)).2.

End url.

(** ** fmt *)

(** A call [fmt.Sprintf(format, args...)] or [fmt.Printf(format, args...)] is
    kept as its format and arguments; the verbs are not expanded. *)
Inductive fmt_arg : Type :=
  | ArgString (s : string)
  | ArgBytes (b : list byte).

Record formatted : Type := Sprintf {
  format : string;
  args : list fmt_arg
}.

(** ** Package protocol *)

Module protocol.

(** The three base errors of the package that the code refers to. *)
Inductive BaseError : Type :=
  | ErrBadRequest
  | ErrParsingData
  | ErrVerification.

#[global] Instance BaseError_eq_dec : EqDecision BaseError.
Proof. solve_decision. Defined.

(** [protocol.Error].  [WithDetails] and [WithInfo] return a copy of their
    receiver with the one field replaced; the receiver is not changed.
    Every error the code builds starts with [WithDetails], so the default
    details of the base errors never show. *)
Record Error : Type := {
  Base : BaseError;
  Details : string;
  DevInfo : option formatted
}.

Definition WithDetails (base : BaseError) (details : string) : Error :=
  {| Base := base; Details := details; DevInfo := None |}.

Definition WithInfo (err : Error) (info : formatted) : Error :=
  {| Base := Base err; Details := Details err; DevInfo := Some info |}.

Definition CeremonyType : Type := string.
Definition CreateCeremony : CeremonyType := "webauthn.create".
Definition AssertCeremony : CeremonyType := "webauthn.get".

Definition TokenBindingStatus : Type := string.
Definition Present : TokenBindingStatus := "present".
Definition Supported : TokenBindingStatus := "supported".

Record TokenBinding : Type := {
  Status : TokenBindingStatus;
  ID : string
}.

Record CollectedClientData : Type := {
  Type_ : CeremonyType;
  Challenge : string;
  Origin : string;
  TokenBinding_ : option TokenBinding
}.

(** What [Verify] leaves behind: the lines it printed on standard output
    and either the error it returned ([None] is [nil]) or a panic. *)
Record Outcome : Type := {
  printed : list formatted;
  result : Completion (option Error)
}.

Definition silent (r : Completion (option Error)) : Outcome :=
  {| printed := []; result := r |}.

(** [(c *CollectedClientData) Verify(storedChallenge, ceremony,
    relyingPartyOrigin)]. *)
Definition Verify (c : CollectedClientData) (storedChallenge : list byte)
    (ceremony : CeremonyType) (relyingPartyOrigin : string) : Outcome :=
  if bool_decide (Type_ c <> ceremony) then
    let err := WithDetails ErrVerification "Error validating ceremony type" in
    let _ := WithInfo err (Sprintf "Expected Value: %s\n Received: %s\n"
                             [ArgString ceremony; ArgString (Type_ c)]) in
    silent (Returns (Some err))
  else
    let '(clientChallengeBytes, err) :=
      base64.DecodeString base64.RawStdEncoding (Challenge c) in
    let encodedStoredChallenge := make (length clientChallengeBytes) in
    match base64.Encode base64.StdEncoding encodedStoredChallenge storedChallenge with
    | None => silent Panics
    | Some encodedStoredChallenge =>
        if bool_decide (is_Some err) then
          silent (Returns (Some (WithDetails ErrParsingData
                                   "Error parsing the authenticator challenge")))
        else if negb (bytes_Equal encodedStoredChallenge clientChallengeBytes) then
          let err := WithDetails ErrVerification "Error validating challenge" in
          {| printed := [Sprintf "Expected b Value: %s\nReceived b: %s\n"
                           [ArgBytes encodedStoredChallenge;
                            ArgBytes clientChallengeBytes]];
             result := Returns (Some (WithInfo err
                         (Sprintf "Expected b Value: %#v\nReceived b: %#v\n"
                            [ArgBytes encodedStoredChallenge;
                             ArgBytes clientChallengeBytes]))) |}
        else
          match url.Parse (Origin c) with
          | inl _ =>
              silent (Returns (Some (WithDetails ErrParsingData
                                       "Error decoding clientData origin as URL")))
          | inr clientDataOrigin =>
              if bool_decide (url.Hostname clientDataOrigin <> relyingPartyOrigin) then
                let err := WithDetails ErrVerification "Error validating origin" in
                {| printed := [Sprintf "Expected Value: %s\n Received: %s\n"
                                 [ArgString relyingPartyOrigin;
                                  ArgString (Origin c)]];
                   result := Returns (Some (WithInfo err
                               (Sprintf "Expected Value: %s\n Received: %s\n"
                                  [ArgString relyingPartyOrigin;
                                   ArgString (Origin c)]))) |}
              else silent (Returns None)
          end
    end.

(** The verifier's failures under the names the specification gives
    them. *)
Inductive VerificationKind : Type :=
  | TypeMismatch
  | MalformedChallenge
  | ChallengeMismatch
  | MalformedOrigin
  | OriginMismatch.

Definition is_kind (k : VerificationKind) (e : Error) : Prop :=
  match k with
  | TypeMismatch =>
      Base e = ErrVerification /\ Details e = "Error validating ceremony type"
  | MalformedChallenge =>
      Base e = ErrParsingData /\ Details e = "Error parsing the authenticator challenge"
  | ChallengeMismatch =>
      Base e = ErrVerification /\ Details e = "Error validating challenge"
  | MalformedOrigin =>
      Base e = ErrParsingData /\ Details e = "Error decoding clientData origin as URL"
  | OriginMismatch =>
      Base e = ErrVerification /\ Details e = "Error validating origin"
  end.

(** [Verify] returned the error [k]; [accepts] is the [nil] return. *)
Definition rejects (o : Outcome) (k : VerificationKind) : Prop :=
  exists e, result o = Returns (Some e) /\ is_kind k e.

Definition accepts (o : Outcome) : Prop := result o = Returns None.

End protocol.

(** ** Memory: byte arrays and slices *)

Module Memory.

Definition addr : Type := positive.

(** A [[]byte] value: [nil], or a window into an array of the store.  Two
    slices with the same array see each other's writes. *)
Inductive slice : Type :=
  | nil
  | Slice (array : addr) (off len : nat).

#[global] Instance slice_eq_dec : EqDecision slice.
Proof. solve_decision. Defined.

(** The state a ceremony runs in: the arrays allocated so far and the bytes
    the system's random source will deliver next. *)
Record World : Type := {
  heap : gmap addr (list byte);
  entropy : list byte
}.

(** The bytes a slice denotes in a given store. *)
Definition load (w : World) (s : slice) : list byte :=
  match s with
  | nil => []
  | Slice a off len => take len (drop off (default [] (heap w !! a)))
  end.

(** [s[i] = b] on a slice: an in-place write to the underlying array. *)
Definition write (w : World) (s : slice) (i : nat) (b : byte) : option World :=
  match s with
  | nil => None
  | Slice a off len =>
      if decide (i < len) then
        Some {| heap := alter (fun arr => <[off + i := b]> arr) a (heap w);
                entropy := entropy w |}
      else None
  end.

(** A fresh array holding [bs] and the slice of all of it. *)
Definition alloc (w : World) (bs : list byte) : slice * World :=
  let a := fresh (dom (heap w)) in
  (Slice a 0 (length bs),
   {| heap := <[a := bs]> (heap w); entropy := entropy w |}).

End Memory.

(** ** Package webauthn *)

Module webauthn.
Import Memory.

(** Modelled from the spec: the options sent to the client hold the
    Challenge, a Timeout in milliseconds and an optional allow-list of
    credential IDs; the declaration of
    [protocol.PublicKeyCredentialRequestOptions] is not part of the file. *)
Record PublicKeyCredentialRequestOptions : Type := {
  Challenge : slice;
  Timeout : Z;
  AllowedCredentials : list slice
}.

(** Modelled from the spec: SessionData is { Challenge, UserID }; its
    declaration is not part of the file. *)
Record SessionData : Type := {
  sChallenge : slice;
  UserID : slice
}.

(** [SessionData{}]. *)
Definition SessionData_zero : SessionData :=
  {| sChallenge := nil; UserID := nil |}.

(** Modelled from the spec: the Relying Party configuration holds the
    timeout advertised to the client and the configured origin. *)
Record Config_ : Type := {
  cTimeout : Z;
  RPOrigin : string
}.

Record WebAuthn : Type := { Config : Config_ }.

(** The [User] interface: the core only asks a user for its ID.  The method
    is a getter; it does not change the store. *)
Class User (U : Type) : Type := {
  WebAuthnID : U -> slice
}.

(** [LoginOption]: a function taking a pointer to the request options.  It
    may rewrite every field of the options it is handed, and the store. *)
Definition LoginOption : Type :=
  PublicKeyCredentialRequestOptions -> World ->
  PublicKeyCredentialRequestOptions * World.

(** [for _, setter := range opts { setter(&requestOptions) }]. *)
Fixpoint apply_opts (opts : list LoginOption)
    (requestOptions : PublicKeyCredentialRequestOptions) (w : World)
    : PublicKeyCredentialRequestOptions * World :=
  match opts with
  | [] => (requestOptions, w)
  | setter :: rest =>
      let '(requestOptions, w) := setter requestOptions w in
      apply_opts rest requestOptions w
  end.

Section Login.
Context {U : Type} `{User U}.
(** [protocol.CreateChallenge], [protocol.ParseCredentialCreationResponse]
    and the types [*http.Request], [Credential] and the parsed response
    belong to other files. *)
Variable CreateChallenge : World -> (protocol.Error + slice) * World.
Variable Request : Type.
Variable Credential : Type.
Variable ParsedCredentialCreationData : Type.
Variable ParseCredentialCreationResponse :
  Request -> protocol.Error + ParsedCredentialCreationData.

(** [BeginLogin]: the three results, with [None] for the [nil] options
    pointer and the [nil] error, and the store afterwards. *)
Definition BeginLogin (webauthn : WebAuthn) (user : U) (opts : list LoginOption)
    (w : World)
    : (option PublicKeyCredentialRequestOptions * SessionData
       * option protocol.Error) * World :=
  match CreateChallenge w with
  | (inl err, w) => ((None, SessionData_zero, Some err), w)
  | (inr challenge, w) =>
      let requestOptions :=
        {| Challenge := challenge;
           Timeout := cTimeout (Config webauthn);
           AllowedCredentials := [] |} in
      let '(requestOptions, w) := apply_opts opts requestOptions w in
      let sessionData :=
        {| sChallenge := challenge; UserID := WebAuthnID user |} in
      ((Some requestOptions, sessionData, None), w)
  end.

(** What [FinishLogin] does besides returning: the calls it makes into
    package [protocol] and the lines it prints. *)
Inductive Effect : Type :=
  | CallParseCredentialCreationResponse (response : Request)
  | CallVerify (c : protocol.CollectedClientData)
      (storedChallenge : list byte) (ceremony : protocol.CeremonyType)
      (relyingPartyOrigin : string)
  | Println (err : protocol.Error)
  | Printf (format : string) (parsedResponse : ParsedCredentialCreationData).

Record Finished : Type := {
  effects : list Effect;
  credential : option Credential;
  error : option protocol.Error
}.

(** [FinishLogin]. *)
Definition FinishLogin (webauthn : WebAuthn) (user : U) (session : SessionData)
    (response : Request) (w : World) : Finished :=
  let _ :=
    if negb (bytes_Equal (load w (WebAuthnID user)) (load w (UserID session)))
    then Some (protocol.WithDetails protocol.ErrBadRequest
                 "ID mismatch for User and Session")
    else None in
  match ParseCredentialCreationResponse response with
  | inl err =>
      {| effects := [CallParseCredentialCreationResponse response; Println err];
         credential := None;
         error := Some (protocol.WithDetails protocol.ErrBadRequest "fuddck") |}
  | inr parsedResponse =>
      {| effects := [CallParseCredentialCreationResponse response;
                     Printf "got the following:\n %+v\n\n" parsedResponse];
         credential := None;
         error := None |}
  end.

End Login.

Arguments BeginLogin {U _} CreateChallenge webauthn user opts w.
Arguments Effect : clear implicits.
Arguments CallParseCredentialCreationResponse {Request ParsedCredentialCreationData}.
Arguments CallVerify {Request ParsedCredentialCreationData}.
Arguments Println {Request ParsedCredentialCreationData}.
Arguments Printf {Request ParsedCredentialCreationData}.
Arguments effects {Request Credential ParsedCredentialCreationData}.
Arguments credential {Request Credential ParsedCredentialCreationData}.
Arguments error {Request Credential ParsedCredentialCreationData}.
Arguments FinishLogin {U _ Request} Credential {ParsedCredentialCreationData}
  ParseCredentialCreationResponse webauthn user session response w.

End webauthn.

(** ** Vocabulary of the statements *)

(** The challenge step of [Verify] lets the call through: the client text
    decodes without error to bytes [b], the stored challenge fits when it is
    encoded into a buffer of [b]'s length, and the buffer then equals [b]. *)
Definition challenge_passes (challenge : string) (storedChallenge : list byte) : Prop :=
  exists b,
    base64.DecodeString base64.RawStdEncoding challenge = (b, None)
    /\ base64.Encode base64.StdEncoding (make (length b)) storedChallenge = Some b.

(** The padded text of [src] in the standard alphabet, four characters for
    every three bytes: what [StdEncoding.Encode] writes. *)
Fixpoint std_text (src : list byte) : list byte :=
  let at_ (val shift : N) := base64.encodeAt base64.StdEncoding (base64.sextet val shift) in
  match src with
  | [] => []
  | [b0] =>
      let val := N.shiftl (uint_of_byte b0) 16 in
      [at_ val 18%N; at_ val 12%N; base64.StdPadding; base64.StdPadding]
  | [b0; b1] =>
      let val := N.lor (N.shiftl (uint_of_byte b0) 16) (N.shiftl (uint_of_byte b1) 8) in
      [at_ val 18%N; at_ val 12%N; at_ val 6%N; base64.StdPadding]
  | b0 :: b1 :: b2 :: rest =>
      let val := N.lor (N.lor (N.shiftl (uint_of_byte b0) 16)
                              (N.shiftl (uint_of_byte b1) 8)) (uint_of_byte b2) in
      [at_ val 18%N; at_ val 12%N; at_ val 6%N; at_ val 0%N] ++ std_text rest
  end.

(** A modifier that leaves the [Challenge] field of the options alone; it may
    still write to the array behind it. *)
Definition preserves_Challenge (setter : webauthn.LoginOption) : Prop :=
  forall o w, webauthn.Challenge (setter o w).1 = webauthn.Challenge o.

(** Character classes of an origin text. *)
Definition other (c : ascii) : ascii -> bool := fun a => negb (Ascii.eqb a c).

Definition schemechar (c : ascii) : bool :=
  url.isalpha c || url.isdigit c || url.oneOf c "+-.".
Definition hostchar (c : ascii) : bool :=
  url.isalpha c || url.isdigit c || url.oneOf c "-.".
Definition authchar (c : ascii) : bool := hostchar c || Ascii.eqb c ":".
Definition querychar (c : ascii) : bool := other "#" c && negb (url.isCTL c).
Definition pathchar (c : ascii) : bool := other "?" c && querychar c.

(** The text of an optional port with its colon, and of an optional query
    with its question mark. *)
Definition colonPort (port : option string) : string :=
  match port with Some p => String ":" p | None => EmptyString end.

Definition questionQuery (query : option string) : string :=
  match query with Some q => String "?" q | None => EmptyString end.

(** The text [scheme://host[:port]path[?query]]. *)
Definition origin_text (scheme host : string) (port : option string)
    (path : string) (query : option string) : string :=
  scheme +:+ "://" +:+ host +:+ colonPort port +:+ path +:+ questionQuery query.

(** The parts make a well-formed origin text: a scheme that starts with a
    letter, a host name of letters, digits, dots and hyphens, a decimal port,
    a path that is empty or starts with a slash and has well-formed escapes,
    no fragment and no control character. *)
Definition well_formed_origin (scheme host : string) (port : option string)
    (path : string) (query : option string) : bool :=
  match scheme with
  | String c s => url.isalpha c && Strings.all schemechar s
  | EmptyString => false
  end
  && Strings.all hostchar host
  && Strings.all url.isdigit (default EmptyString port)
  && (negb (url.nonempty path) || Strings.HasPrefix path "/")
  && Strings.all pathchar path
  && bool_decide (url.unescape_check path url.encodePath = None)
  && Strings.all querychar (default EmptyString query).

(** ** Test doubles *)

Module Fixture.
Import Memory webauthn.

(** An application user that keeps its ID in the store. *)
Record account : Type := { id : slice }.

#[global] Instance account_User : User account := {| WebAuthnID := id |}.

(** Modelled from the spec: the Challenge Generator returns a fresh
    challenge read from the random source, or fails when the source does;
    [protocol.CreateChallenge] is not part of the file.  The challenge has
    32 bytes. *)
Definition CreateChallenge (w : World) : (protocol.Error + slice) * World :=
  if decide (32 <= length (entropy w)) then
    let '(s, w') := alloc {| heap := heap w; entropy := drop 32 (entropy w) |}
                          (take 32 (entropy w)) in
    (inr s, w')
  else (inl (protocol.WithDetails protocol.ErrBadRequest "entropy source failure"), w).

(** A parser double: the request is its body text; an empty body does not
    parse; any other body is taken as the [type] of a response whose client
    data has an empty challenge and the origin [https://example.com]. *)
Definition ParseCredentialCreationResponse (response : string)
    : protocol.Error + protocol.CollectedClientData :=
  match response with
  | EmptyString => inl (protocol.WithDetails protocol.ErrParsingData "empty body")
  | _ => inr {| protocol.Type_ := response;
                protocol.Challenge := EmptyString;
                protocol.Origin := "https://example.com";
                protocol.TokenBinding_ := None |}
  end.

(** Three modifiers: one sets the timeout, one overwrites the first byte of
    the challenge in place, one points the options at another challenge. *)
Definition WithTimeout (t : Z) : LoginOption :=
  fun o w => ({| Challenge := Challenge o; Timeout := t;
                 AllowedCredentials := AllowedCredentials o |}, w).

Definition Scribble (b : byte) : LoginOption :=
  fun o w => (o, default w (write w (Challenge o) 0 b)).

Definition WithChallenge (bs : list byte) : LoginOption :=
  fun o w =>
    let '(s, w') := alloc w bs in
    ({| Challenge := s; Timeout := Timeout o;
        AllowedCredentials := AllowedCredentials o |}, w').

(** A store with the IDs of two users and 32 bytes of entropy. *)
Definition world : World :=
  {| heap := {[ 1%positive := [x01]; 2%positive := [x02] ]};
     entropy := replicate 32 x2a |}.

Definition alice : account := {| id := Slice 1%positive 0 1 |}.
Definition bob : account := {| id := Slice 2%positive 0 1 |}.

Definition rp : WebAuthn :=
  {| Config := {| cTimeout := 60000; RPOrigin := "example.com" |} |}.

(** The application's credential record; nothing here looks inside. *)
Definition Credential : Type := list byte.

Definition clientData (type challenge origin : string) : protocol.CollectedClientData :=
  {| protocol.Type_ := type; protocol.Challenge := challenge;
     protocol.Origin := origin; protocol.TokenBinding_ := None |}.

End Fixture.

(** ** Vocabulary of the further properties *)

(** The unpadded text of [src] in the standard alphabet: what
    [RawStdEncoding.Encode] writes. *)
Fixpoint raw_text (src : list byte) : list byte :=
  let at_ (val shift : N) := base64.encodeAt base64.RawStdEncoding (base64.sextet val shift) in
  match src with
  | [] => []
  | [b0] =>
      let val := N.shiftl (uint_of_byte b0) 16 in
      [at_ val 18%N; at_ val 12%N]
  | [b0; b1] =>
      let val := N.lor (N.shiftl (uint_of_byte b0) 16) (N.shiftl (uint_of_byte b1) 8) in
      [at_ val 18%N; at_ val 12%N; at_ val 6%N]
  | b0 :: b1 :: b2 :: rest =>
      let val := N.lor (N.lor (N.shiftl (uint_of_byte b0) 16)
                              (N.shiftl (uint_of_byte b1) 8)) (uint_of_byte b2) in
      [at_ val 18%N; at_ val 12%N; at_ val 6%N; at_ val 0%N] ++ raw_text rest
  end.

(** The 24 bits of a quantum, put together from its sextets. *)
Definition recombine (s0 s1 s2 s3 : N) : N :=
  N.lor (N.lor (N.lor (N.shiftl s0 18) (N.shiftl s1 12)) (N.shiftl s2 6)) s3.

(** The three bytes of a 24-bit group. *)
Definition group (b0 b1 b2 : byte) : N :=
  N.lor (N.lor (N.shiftl (uint_of_byte b0) 16) (N.shiftl (uint_of_byte b1) 8))
        (uint_of_byte b2).

(** A byte that may stand in the authority of an origin text: no slash, no
    question mark, no fragment sign, no control character. *)
Definition authoritychar (c : ascii) : bool := other "/" c && pathchar c.

(** The text [scheme://authority path [?query]]. *)
Definition origin_text_with (scheme authority path : string) (query : option string)
    : string :=
  scheme +:+ "://" +:+ authority +:+ path +:+ questionQuery query.


(** * Properties *)

(** ** The models of the library functions on sample inputs *)

Example encode_foobar :
  base64.Encode base64.StdEncoding (make 8) (bytes_of_string "fooba")
  = Some (bytes_of_string "Zm9vYmE=").
Proof. vm_compute. reflexivity. Qed.

Example decode_foobar :
  base64.DecodeString base64.RawStdEncoding "Zm9vYmE"
  = (bytes_of_string "fooba", None).
Proof. vm_compute. reflexivity. Qed.

Example decode_newline :
  base64.DecodeString base64.RawStdEncoding (String "Z" (String "m" (String "010" "9vYmE")))
  = (bytes_of_string "fooba", None).
Proof. vm_compute. reflexivity. Qed.

Example decode_dangling_character :
  base64.DecodeString base64.RawStdEncoding "Zm9vY"
  = (bytes_of_string "foo", Some (base64.CorruptInput 4)).
Proof. vm_compute. reflexivity. Qed.

Example decode_padding_is_corrupt :
  base64.DecodeString base64.RawStdEncoding "AA=="
  = ([], Some (base64.CorruptInput 2)).
Proof. vm_compute. reflexivity. Qed.

Example encode_keeps_rest :
  base64.Encode base64.StdEncoding (make 6) [x00]
  = Some (bytes_of_string "AA==" ++ [x00; x00]).
Proof. vm_compute. reflexivity. Qed.

Example encode_out_of_range :
  base64.Encode base64.StdEncoding (make 3) [x00] = None.
Proof. vm_compute. reflexivity. Qed.

Example parse_origin_1 :
  url.Parse "https://example.com:8443/login?next=%2F#top"
  = inr {| url.Scheme := "https"; url.Opaque := EmptyString; url.User := None;
           url.Host := "example.com:8443"; url.Path := "/login";
           url.OmitHost := false; url.ForceQuery := false;
           url.RawQuery := "next=%2F"; url.Fragment := "top" |}.
Proof. vm_compute. reflexivity. Qed.

Example parse_origin_2 :
  url.Hostname <$> url.Parse "http://user:pw@[fe80::1%25en0]:80/a%20b"
  = inr "fe80::1%en0".
Proof. vm_compute. reflexivity. Qed.

Example parse_origin_3 : url.Parse "http://exa mple.com" = inl (url.InvalidHostError " ").
Proof. vm_compute. reflexivity. Qed.

Example parse_origin_4 :
  url.Hostname <$> url.Parse "example.com" = inr EmptyString.
Proof. vm_compute. reflexivity. Qed.

(** ** Verify: the ceremony type *)

Section VerifyType.
Import protocol.

(** C5: a client data whose type differs from the expected ceremony is
    rejected with TypeMismatch, whatever the challenge and the origin are;
    the type check comes first, so nothing is printed and the challenge is
    not even decoded. *)
Theorem Verify_type_mismatch (c : CollectedClientData)
    (storedChallenge : list byte) (ceremony : CeremonyType)
    (relyingPartyOrigin : string) :
  Type_ c <> ceremony ->
  rejects (Verify c storedChallenge ceremony relyingPartyOrigin) TypeMismatch
  /\ printed (Verify c storedChallenge ceremony relyingPartyOrigin) = [].
Proof.
  intros Hne. unfold Verify.
  rewrite bool_decide_eq_true_2 by exact Hne.
  split; [|reflexivity].
  exists (WithDetails ErrVerification "Error validating ceremony type").
  split; [reflexivity|]. split; reflexivity.
Qed.

(** A registration response offered to a login whose stored challenge
    would make the challenge step panic: the type check answers first. *)
Lemma Verify_type_mismatch_witness :
  CreateCeremony <> AssertCeremony
  /\ rejects (Verify (Fixture.clientData CreateCeremony "AA" "https://example.com")
                [x00] AssertCeremony "example.com") TypeMismatch.
Proof.
  assert (Hne : CreateCeremony <> AssertCeremony) by discriminate.
  split; [exact Hne|].
  exact (proj1 (Verify_type_mismatch
                  (Fixture.clientData CreateCeremony "AA" "https://example.com")
                  [x00] AssertCeremony "example.com" Hne)).
Defined.

End VerifyType.

(** ** Verify: token binding *)

(** C9: the token-binding member takes no part in the verdict: two client
    data that differ only in it get the same outcome, printed lines
    included. *)
Theorem Verify_ignores_TokenBinding (type : protocol.CeremonyType)
    (challenge origin : string) (tb1 tb2 : option protocol.TokenBinding)
    (storedChallenge : list byte) (ceremony : protocol.CeremonyType)
    (relyingPartyOrigin : string) :
  protocol.Verify
    {| protocol.Type_ := type; protocol.Challenge := challenge;
       protocol.Origin := origin; protocol.TokenBinding_ := tb1 |}
    storedChallenge ceremony relyingPartyOrigin
  = protocol.Verify
      {| protocol.Type_ := type; protocol.Challenge := challenge;
         protocol.Origin := origin; protocol.TokenBinding_ := tb2 |}
      storedChallenge ceremony relyingPartyOrigin.
Proof. reflexivity. Qed.

(** ** FinishLogin *)

Section FinishLoginProperties.
Import Memory webauthn.
Context {U : Type} `{User U}.
Context {Request ParsedCredentialCreationData : Type}.
Variable Credential : Type.
Variable Parse : Request -> protocol.Error + ParsedCredentialCreationData.

(** C10: the credential [FinishLogin] returns is [nil] for every user,
    session and request; when the request parses, the error is [nil] too,
    and otherwise it is the bad-request error. *)
Theorem FinishLogin_credential_nil (rp : WebAuthn) (user : U)
    (session : SessionData) (response : Request) (w : World) :
  credential (FinishLogin Credential Parse rp user session response w) = None
  /\ error (FinishLogin Credential Parse rp user session response w)
     = match Parse response with
       | inl _ => Some (protocol.WithDetails protocol.ErrBadRequest "fuddck")
       | inr _ => None
       end.
Proof.
  unfold FinishLogin. destruct (Parse response); split; reflexivity.
Qed.


(** The comparison of the two IDs has no effect: another user and another
    session give the same result. *)
Lemma FinishLogin_ID_check_without_effect (rp : WebAuthn) (user user' : U)
    (session session' : SessionData) (response : Request) (w : World) :
  FinishLogin Credential Parse rp user' session' response w
  = FinishLogin Credential Parse rp user session response w.
Proof. unfold FinishLogin. destruct (Parse response); reflexivity. Qed.

End FinishLoginProperties.


(** C3, at a session that belongs to another user: the IDs differ, yet
    [FinishLogin] goes on to parse the request and returns neither a
    credential nor an error; the mismatch error is built and dropped. *)
Theorem FinishLogin_user_mismatch_proceeds :
  let session := {| webauthn.sChallenge := Memory.nil;
                    webauthn.UserID := Fixture.id Fixture.bob |} in
  Memory.load Fixture.world (webauthn.WebAuthnID Fixture.alice)
    <> Memory.load Fixture.world (webauthn.UserID session)
  /\ webauthn.FinishLogin Fixture.Credential
       Fixture.ParseCredentialCreationResponse
       Fixture.rp Fixture.alice session "webauthn.get" Fixture.world
     = {| webauthn.effects :=
            [webauthn.CallParseCredentialCreationResponse "webauthn.get";
             webauthn.Printf "got the following:\n %+v\n\n"
               (Fixture.clientData "webauthn.get" EmptyString "https://example.com")];
          webauthn.credential := None;
          webauthn.error := None |}.
Proof.
  split.
  - vm_compute. discriminate.
  - reflexivity.
Qed.

(** ** BeginLogin *)

Section BeginLoginProperties.
Import Memory webauthn.
Context {U : Type} `{User U}.
Variable CreateChallenge : World -> (protocol.Error + slice) * World.

Lemma apply_opts_Challenge (opts : list LoginOption)
    (o : PublicKeyCredentialRequestOptions) (w : World) :
  Forall preserves_Challenge opts ->
  Challenge (apply_opts opts o w).1 = Challenge o.
Proof.
  intros Hall. revert o w.
  induction Hall as [|setter rest Hsetter _ IH]; intros o w; simpl.
  - reflexivity.
  - specialize (Hsetter o w). destruct (setter o w) as [o' w'].
    rewrite IH. exact Hsetter.
Qed.

(** C7, as the code has it: when the challenge generator succeeds,
    [BeginLogin] returns options, a session and no error; the session holds
    the generated challenge and the user's ID whatever the modifiers do;
    and when no modifier reassigns the options' [Challenge] field, the
    options hold the same slice, so that both read the same bytes from the
    store [BeginLogin] leaves behind. *)
Theorem BeginLogin_session_challenge (rp : WebAuthn) (user : U)
    (opts : list LoginOption) (w w1 : World) (challenge : slice) :
  CreateChallenge w = (inr challenge, w1) ->
  exists requestOptions sessionData w',
    BeginLogin CreateChallenge rp user opts w
    = ((Some requestOptions, sessionData, None), w')
    /\ sChallenge sessionData = challenge
    /\ UserID sessionData = WebAuthnID user
    /\ (Forall preserves_Challenge opts ->
        Challenge requestOptions = sChallenge sessionData
        /\ load w' (Challenge requestOptions) = load w' (sChallenge sessionData)).
Proof.
  intros Hcreate. unfold BeginLogin. rewrite Hcreate.
  pose proof (apply_opts_Challenge opts
                {| Challenge := challenge; Timeout := cTimeout (Config rp);
                   AllowedCredentials := [] |} w1) as Hkeep.
  destruct (apply_opts opts _ w1) as [requestOptions w'].
  exists requestOptions, {| sChallenge := challenge; UserID := WebAuthnID user |}, w'.
  split; [reflexivity|]. split; [reflexivity|]. split; [reflexivity|].
  intros Hall. specialize (Hkeep Hall). simpl in *.
  split; [exact Hkeep | rewrite Hkeep; reflexivity].
Qed.

End BeginLoginProperties.

Lemma preserves_WithTimeout (t : Z) : preserves_Challenge (Fixture.WithTimeout t).
Proof. intros o w. reflexivity. Qed.

Lemma preserves_Scribble (b : byte) : preserves_Challenge (Fixture.Scribble b).
Proof. intros o w. reflexivity. Qed.

(** A login with a timeout modifier and a modifier that overwrites the first
    challenge byte in place: the session and the options still share the
    challenge. *)
Lemma BeginLogin_session_challenge_witness :
  exists challenge w1,
    Fixture.CreateChallenge Fixture.world = (inr challenge, w1)
    /\ exists requestOptions sessionData w',
         webauthn.BeginLogin Fixture.CreateChallenge Fixture.rp Fixture.alice
           [Fixture.WithTimeout 5000; Fixture.Scribble xff] Fixture.world
         = ((Some requestOptions, sessionData, None), w')
         /\ Memory.load w' (webauthn.Challenge requestOptions)
            = Memory.load w' (webauthn.sChallenge sessionData).
Proof.
  eexists _, _. split; [reflexivity|].
  destruct (BeginLogin_session_challenge Fixture.CreateChallenge Fixture.rp
              Fixture.alice [Fixture.WithTimeout 5000; Fixture.Scribble xff]
              Fixture.world _ _ eq_refl)
    as (requestOptions & sessionData & w' & Hrun & _ & _ & Hsame).
  exists requestOptions, sessionData, w'. split; [exact Hrun|].
  apply Hsame.
  constructor; [apply preserves_WithTimeout|].
  constructor; [apply preserves_Scribble|].
  constructor.
Defined.

(** The in-place write of that modifier is seen through the session as well:
    the two challenges are one array. *)
Example BeginLogin_scribble_shared :
  exists requestOptions sessionData w',
    webauthn.BeginLogin Fixture.CreateChallenge Fixture.rp Fixture.alice
      [Fixture.Scribble xff] Fixture.world
    = ((Some requestOptions, sessionData, None), w')
    /\ Memory.load w' (webauthn.sChallenge sessionData) = xff :: replicate 31 x2a
    /\ Memory.load w' (webauthn.Challenge requestOptions) = xff :: replicate 31 x2a.
Proof.
  eexists _, _, _. split; [vm_compute; reflexivity|].
  split; vm_compute; reflexivity.
Qed.

(** C7, at a modifier that points the options at another challenge: the
    options carry one zero byte, the session the 32 generated bytes. *)
Lemma BeginLogin_modifier_overrides_Challenge :
  exists requestOptions sessionData w',
    webauthn.BeginLogin Fixture.CreateChallenge Fixture.rp Fixture.alice
      [Fixture.WithChallenge [x00]] Fixture.world
    = ((Some requestOptions, sessionData, None), w')
    /\ Memory.load w' (webauthn.Challenge requestOptions) = [x00]
    /\ Memory.load w' (webauthn.sChallenge sessionData) = replicate 32 x2a
    /\ Memory.load w' (webauthn.Challenge requestOptions)
       <> Memory.load w' (webauthn.sChallenge sessionData).
Proof.
  eexists _, _, _. split; [vm_compute; reflexivity|].
  split; [vm_compute; reflexivity|].
  split; [vm_compute; reflexivity|].
  vm_compute. discriminate.
Qed.

(** ** base64: when [Encode] fits its destination *)

Section EncodeRoom.
Import base64.

Lemma list_ind3 {A : Type} (P : list A -> Prop) :
  P [] -> (forall a, P [a]) -> (forall a b, P [a; b]) ->
  (forall a b c l, P l -> P (a :: b :: c :: l)) ->
  forall l, P l.
Proof.
  intros H0 H1 H2 H3.
  assert (Hall : forall l, P l /\ (forall a, P (a :: l)) /\ (forall a b, P (a :: b :: l))).
  { induction l as [|x l (IH0 & IH1 & IH2)].
    - repeat split; auto.
    - repeat split; auto. }
  intros l. apply Hall.
Qed.

Lemma store_Some (dst : list byte) (i : nat) (b : byte) :
  i < length dst -> store dst i b = Some (<[i := b]> dst).
Proof. intros Hi. unfold store. rewrite decide_True by exact Hi. reflexivity. Qed.

Lemma EncodedLen_Std (n : nat) : EncodedLen StdEncoding n = (n + 2) / 3 * 4.
Proof. reflexivity. Qed.

Lemma EncodedLen_Std_step (n : nat) :
  EncodedLen StdEncoding (S (S (S n))) = EncodedLen StdEncoding n + 4.
Proof.
  rewrite !EncodedLen_Std.
  replace (S (S (S n)) + 2) with (n + 2 + 1 * 3) by lia.
  rewrite Nat.div_add by lia. lia.
Qed.

(** The padded encoding of a non-empty challenge is longer than it. *)
Lemma EncodedLen_Std_longer (n : nat) : 0 < n -> n < EncodedLen StdEncoding n.
Proof.
  intros Hn. rewrite EncodedLen_Std.
  pose proof (Nat.div_mod_eq (n + 2) 3) as Hdm.
  pose proof (Nat.mod_upper_bound (n + 2) 3 ltac:(lia)) as Hlt.
  lia.
Qed.

(** [Encode] runs through exactly when its destination has room for the
    whole padded encoding; otherwise a store falls outside [dst]. *)
Lemma encode_from_room (src : list byte) :
  forall (dst : list byte) (di : nat),
    is_Some (encode_from StdEncoding dst di src)
    <-> src = [] \/ di + EncodedLen StdEncoding (length src) <= length dst.
Proof.
  induction src as [|b0|b0 b1|b0 b1 b2 rest IH] using list_ind3; intros dst di.
  - simpl. split; [left; reflexivity | intros _; eexists; reflexivity].
  - change (EncodedLen StdEncoding (length [b0])) with 4.
    destruct (decide (di + 4 <= length dst)) as [Hroom|Hroom].
    + split; [right; exact Hroom|intros _]. cbn [encode_from padChar StdEncoding].
      rewrite store_Some by lia. cbn [mbind option_bind].
      rewrite store_Some by (rewrite length_insert; lia). cbn [mbind option_bind].
      rewrite store_Some by (rewrite !length_insert; lia). cbn [mbind option_bind].
      rewrite store_Some by (rewrite !length_insert; lia). eexists; reflexivity.
    + split; [|intros [Hnil|Hle]; [discriminate Hnil | lia]].
      intros [r Hr]. exfalso. cbn [encode_from padChar StdEncoding] in Hr.
      unfold store in Hr.
      repeat (case_decide; cbn [mbind option_bind] in Hr;
              rewrite ?length_insert in *; [|discriminate Hr]).
      lia.
  - change (EncodedLen StdEncoding (length [b0; b1])) with 4.
    destruct (decide (di + 4 <= length dst)) as [Hroom|Hroom].
    + split; [right; exact Hroom|intros _]. cbn [encode_from padChar StdEncoding].
      rewrite store_Some by lia. cbn [mbind option_bind].
      rewrite store_Some by (rewrite length_insert; lia). cbn [mbind option_bind].
      rewrite store_Some by (rewrite !length_insert; lia). cbn [mbind option_bind].
      rewrite store_Some by (rewrite !length_insert; lia). eexists; reflexivity.
    + split; [|intros [Hnil|Hle]; [discriminate Hnil | lia]].
      intros [r Hr]. exfalso. cbn [encode_from padChar StdEncoding] in Hr.
      unfold store in Hr.
      repeat (case_decide; cbn [mbind option_bind] in Hr;
              rewrite ?length_insert in *; [|discriminate Hr]).
      lia.
  - cbn [length]. rewrite EncodedLen_Std_step.
    destruct (decide (di + 4 <= length dst)) as [Hroom|Hroom].
    + cbn [encode_from].
      rewrite store_Some by lia. cbn [mbind option_bind].
      rewrite store_Some by (rewrite length_insert; lia). cbn [mbind option_bind].
      rewrite store_Some by (rewrite !length_insert; lia). cbn [mbind option_bind].
      rewrite store_Some by (rewrite !length_insert; lia). cbn [mbind option_bind].
      rewrite IH, !length_insert.
      split.
      * intros [->|Hle]; right; [change (EncodedLen StdEncoding (length [])) with 0|]; lia.
      * intros [Hnil|Hle]; [discriminate Hnil|right; lia].
    + split; [|intros [Hnil|Hle]; [discriminate Hnil | lia]].
      intros [r Hr]. exfalso. cbn [encode_from] in Hr.
      unfold store in Hr.
      repeat (case_decide; cbn [mbind option_bind] in Hr;
              rewrite ?length_insert in *; [|discriminate Hr]).
      lia.
Qed.

Lemma Encode_room (dst src : list byte) :
  is_Some (Encode StdEncoding dst src)
  <-> src = [] \/ EncodedLen StdEncoding (length src) <= length dst.
Proof. unfold Encode. rewrite encode_from_room. reflexivity. Qed.

End EncodeRoom.

(** ** base64: what [Encode] writes *)

Section EncodeText.
Import base64.

Lemma length_std_text (src : list byte) :
  length (std_text src) = EncodedLen StdEncoding (length src).
Proof.
  induction src as [|b0|b0 b1|b0 b1 b2 rest IH] using list_ind3; try reflexivity.
  cbn [std_text length app]. rewrite IH, EncodedLen_Std_step. lia.
Qed.

Lemma store_at (pre l : list byte) (k : nat) (c : byte) :
  k < length l ->
  store (pre ++ l) (length pre + k) c = Some (pre ++ <[k := c]> l).
Proof.
  intros Hk. unfold store.
  rewrite decide_True by (rewrite length_app; lia).
  rewrite insert_app_r. reflexivity.
Qed.

(** [Encode] overwrites exactly the window it needs with the text of
    [src]. *)
Lemma encode_from_text (src : list byte) :
  forall pre mid post : list byte,
    length mid = length (std_text src) ->
    encode_from StdEncoding (pre ++ mid ++ post) (length pre) src
    = Some (pre ++ std_text src ++ post).
Proof.
  induction src as [|b0|b0 b1|b0 b1 b2 rest IH] using list_ind3;
    intros pre mid post Hlen.
  - destruct mid; [reflexivity|discriminate Hlen].
  - destruct mid as [|x0 [|x1 [|x2 [|x3 [|]]]]]; try discriminate Hlen.
    cbn [encode_from padChar StdEncoding app].
    rewrite store_at by (simpl; lia). cbn [mbind option_bind]. simpl insert.
    rewrite store_at by (simpl; lia). cbn [mbind option_bind]. simpl insert.
    rewrite store_at by (simpl; lia). cbn [mbind option_bind]. simpl insert.
    rewrite store_at by (simpl; lia). reflexivity.
  - destruct mid as [|x0 [|x1 [|x2 [|x3 [|]]]]]; try discriminate Hlen.
    cbn [encode_from padChar StdEncoding app].
    rewrite store_at by (simpl; lia). cbn [mbind option_bind]. simpl insert.
    rewrite store_at by (simpl; lia). cbn [mbind option_bind]. simpl insert.
    rewrite store_at by (simpl; lia). cbn [mbind option_bind]. simpl insert.
    rewrite store_at by (simpl; lia). reflexivity.
  - destruct mid as [|x0 [|x1 [|x2 [|x3 mid]]]]; try discriminate Hlen.
    cbn [std_text length app] in Hlen.
    cbn [encode_from app].
    rewrite store_at by (simpl; lia). cbn [mbind option_bind]. simpl insert.
    rewrite store_at by (simpl; lia). cbn [mbind option_bind]. simpl insert.
    rewrite store_at by (simpl; lia). cbn [mbind option_bind]. simpl insert.
    rewrite store_at by (simpl; lia). cbn [mbind option_bind]. simpl insert.
    set (c0 := encodeAt _ _). set (c1 := encodeAt _ _).
    set (c2 := encodeAt _ _). set (c3 := encodeAt _ _).
    specialize (IH (pre ++ [c0; c1; c2; c3]) mid post ltac:(lia)).
    rewrite length_app in IH. cbn [length] in IH.
    rewrite <- !app_assoc in IH. cbn [app] in IH.
    rewrite IH. cbn [std_text app]. reflexivity.
Qed.

(** [Encode] into a destination with room: the text, then what was there. *)
Lemma Encode_text (dst src : list byte) :
  length (std_text src) <= length dst ->
  Encode StdEncoding dst src
  = Some (std_text src ++ drop (length (std_text src)) dst).
Proof.
  intros Hroom. unfold Encode.
  rewrite <- (take_drop (length (std_text src)) dst) at 1.
  apply (encode_from_text src [] (take (length (std_text src)) dst)).
  rewrite length_take. lia.
Qed.
End EncodeText.

(** ** Verify: the challenge *)

Section VerifyChallenge.
Import protocol.

Lemma length_make (n : nat) : length (make n) = n.
Proof. apply length_replicate. Qed.

(** [Verify] panics exactly when the type matches, the stored challenge is
    not empty and the bytes decoded from the client's text, error or not,
    are fewer than the padded encoding of the stored challenge. *)
Lemma Verify_panics_iff (c : CollectedClientData) (storedChallenge : list byte)
    (ceremony : CeremonyType) (relyingPartyOrigin : string) :
  result (Verify c storedChallenge ceremony relyingPartyOrigin) = Panics
  <-> Type_ c = ceremony
      /\ storedChallenge <> []
      /\ length (base64.DecodeString base64.RawStdEncoding (Challenge c)).1
         < base64.EncodedLen base64.StdEncoding (length storedChallenge).
Proof.
  unfold Verify.
  destruct (decide (Type_ c = ceremony)) as [Hty|Hty].
  2:{ rewrite bool_decide_eq_true_2 by exact Hty.
      split; [discriminate|intros [Heq _]; contradiction]. }
  rewrite bool_decide_eq_false_2 by (intros Hne; apply Hne, Hty).
  destruct (base64.DecodeString base64.RawStdEncoding (Challenge c)) as [b err].
  cbn [fst].
  pose proof (Encode_room (make (length b)) storedChallenge) as Hroom.
  rewrite length_make in Hroom.
  destruct (base64.Encode base64.StdEncoding (make (length b)) storedChallenge)
    as [encoded|].
  - assert (Hfit : storedChallenge = []
                   \/ base64.EncodedLen base64.StdEncoding (length storedChallenge)
                      <= length b) by (apply Hroom; eexists; reflexivity).
    split.
    + intros Hp. exfalso.
      destruct (bool_decide (is_Some err)); [discriminate Hp|].
      destruct (negb (bytes_Equal encoded b)); [discriminate Hp|].
      destruct (url.Parse (Origin c)); [discriminate Hp|].
      destruct (bool_decide _); discriminate Hp.
    + intros (_ & Hne & Hlt). exfalso. destruct Hfit as [Hnil|Hle]; [contradiction|lia].
  - split; [intros _|reflexivity].
    split; [exact Hty|].
    assert (Hno : ~ (storedChallenge = []
                     \/ base64.EncodedLen base64.StdEncoding (length storedChallenge)
                        <= length b)).
    { intros Hfit. apply Hroom in Hfit. destruct Hfit as [r Hr]. discriminate Hr. }
    split; [intros Hnil; apply Hno; left; exact Hnil | lia].
Qed.

(** A client challenge that decodes to exactly the bytes of a non-empty
    stored challenge is never accepted: the call panics. *)
Lemma Verify_equal_bytes_panics (c : CollectedClientData)
    (storedChallenge : list byte) (relyingPartyOrigin : string) :
  storedChallenge <> [] ->
  base64.DecodeString base64.RawStdEncoding (Challenge c) = (storedChallenge, None) ->
  result (Verify c storedChallenge (Type_ c) relyingPartyOrigin) = Panics.
Proof.
  intros Hne Hdec. apply Verify_panics_iff. rewrite Hdec. cbn [fst].
  split; [reflexivity|]. split; [exact Hne|].
  apply EncodedLen_Std_longer. destruct storedChallenge; [contradiction|simpl; lia].
Qed.

(** C1, at three inputs.  The client sends the one-byte challenge [00] as
    [AA], which decodes to the stored bytes, and the call panics; the
    client sends [QUE9PQ], which decodes to the four characters [AA==], and
    is accepted for the stored byte [00]; with an empty stored challenge
    the client's byte [00] is accepted although the two differ. *)
Theorem Verify_challenge_compares_encoding :
  (base64.DecodeString base64.RawStdEncoding "AA" = ([x00], None)
   /\ result (Verify (Fixture.clientData AssertCeremony "AA" "https://example.com")
                [x00] AssertCeremony "example.com") = Panics)
  /\ (base64.DecodeString base64.RawStdEncoding "QUE9PQ"
        = (bytes_of_string "AA==", None)
      /\ accepts (Verify (Fixture.clientData AssertCeremony "QUE9PQ" "https://example.com")
                    [x00] AssertCeremony "example.com"))
  /\ accepts (Verify (Fixture.clientData AssertCeremony "AA" "https://example.com")
                [] AssertCeremony "example.com").
Proof. repeat split; vm_compute; reflexivity. Qed.

(** C6, at three inputs with the stored challenge [00]: a well-formed
    client challenge, a client challenge that is not base64 and an empty
    one.  Each time the buffer made from the decoded length is too short
    for the encoded stored challenge and [Encode] panics, before the
    decoding error is looked at. *)
Theorem Verify_panics_on_short_challenge :
  result (Verify (Fixture.clientData AssertCeremony "AA" "https://example.com")
            [x00] AssertCeremony "example.com") = Panics
  /\ (base64.DecodeString base64.RawStdEncoding "!"
        = ([], Some (base64.CorruptInput 0))
      /\ result (Verify (Fixture.clientData AssertCeremony "!" "https://example.com")
                   [x00] AssertCeremony "example.com") = Panics)
  /\ result (Verify (Fixture.clientData AssertCeremony EmptyString "https://example.com")
               [x00] AssertCeremony "example.com") = Panics.
Proof. repeat split; vm_compute; reflexivity. Qed.

End VerifyChallenge.

(** ** net/url on origin texts *)

Section StringFacts.
Import Strings.

Lemma string_all_app (p : ascii -> bool) (s t : string) :
  all p (s +:+ t) = all p s && all p t.
Proof. induction s as [|a s IH]; simpl; [reflexivity|]. rewrite IH. apply andb_assoc. Qed.

Lemma string_all_impl (p q : ascii -> bool) (s : string) :
  (forall a, p a = true -> q a = true) -> all p s = true -> all q s = true.
Proof.
  intros Hpq. induction s as [|a s IH]; simpl; [reflexivity|].
  intros [Ha Hs]%andb_true_iff. rewrite (Hpq a Ha), IH; auto.
Qed.

Lemma string_take_app (s t : string) : take (String.length s) (s +:+ t) = s.
Proof. induction s as [|a s IH]; simpl; [destruct t; reflexivity|]. rewrite IH. reflexivity. Qed.

Lemma string_drop_app (s t : string) (k : nat) :
  drop (String.length s + k) (s +:+ t) = drop k t.
Proof. induction s as [|a s IH]; simpl; [reflexivity|]. exact IH. Qed.

Lemma string_drop_0 (s : string) : drop 0 s = s.
Proof. destruct s; reflexivity. Qed.

Lemma Index_absent (c : ascii) (s : string) :
  all (other c) s = true -> Index s (String c EmptyString) = None.
Proof.
  induction s as [|a s IH]; simpl; [reflexivity|].
  intros [Ha Hs]%andb_true_iff. unfold other in Ha.
  destruct (ascii_dec c a) as [->|Hne].
  - rewrite Ascii.eqb_refl in Ha. discriminate Ha.
  - rewrite IH by exact Hs. reflexivity.
Qed.

Lemma Index_first (c : ascii) (s t : string) :
  all (other c) s = true ->
  Index (s +:+ String c t) (String c EmptyString) = Some (String.length s).
Proof.
  induction s as [|a s IH]; simpl.
  - intros _. destruct (ascii_dec c c); [|contradiction]. destruct t; reflexivity.
  - intros [Ha Hs]%andb_true_iff. unfold other in Ha.
    destruct (ascii_dec c a) as [->|Hne].
    + rewrite Ascii.eqb_refl in Ha. discriminate Ha.
    + rewrite IH by exact Hs. reflexivity.
Qed.

Lemma LastIndex_absent (c : ascii) (s : string) :
  all (other c) s = true -> LastIndex s (String c EmptyString) = None.
Proof.
  induction s as [|a s IH]; simpl; [reflexivity|].
  intros [Ha Hs]%andb_true_iff. unfold other in Ha. rewrite IH by exact Hs.
  destruct (ascii_dec c a) as [->|Hne]; [|reflexivity].
  rewrite Ascii.eqb_refl in Ha. discriminate Ha.
Qed.

Lemma LastIndex_last (c : ascii) (s t : string) :
  all (other c) t = true ->
  LastIndex (s +:+ String c t) (String c EmptyString) = Some (String.length s).
Proof.
  intros Ht. induction s as [|a s IH].
  - simpl. rewrite LastIndex_absent by exact Ht.
    destruct (ascii_dec c c); [|contradiction]. destruct t; reflexivity.
  - simpl. rewrite IH. reflexivity.
Qed.

Lemma CountByte_absent (c : ascii) (s : string) :
  all (other c) s = true -> CountByte s c = 0.
Proof.
  induction s as [|a s IH]; simpl; [reflexivity|].
  intros [Ha Hs]%andb_true_iff. unfold other in Ha.
  rewrite IH by exact Hs. destruct (Ascii.eqb a c); [discriminate Ha|reflexivity].
Qed.

Lemma CountByte_app (c : ascii) (s t : string) :
  CountByte (s +:+ t) c = CountByte s c + CountByte t c.
Proof. induction s as [|a s IH]; simpl; [reflexivity|]. rewrite IH. lia. Qed.

Lemma HasSuffixByte_absent (c : ascii) (s : string) :
  all (other c) s = true -> HasSuffixByte s c = false.
Proof.
  induction s as [|a s IH]; [reflexivity|].
  cbn [all]. intros [Ha Hs]%andb_true_iff. unfold other in Ha.
  cbn [HasSuffixByte]. destruct s; [|exact (IH Hs)].
  destruct (Ascii.eqb a c); [discriminate Ha|reflexivity].
Qed.

Lemma HasSuffixByte_app (c : ascii) (s : string) (b : ascii) (t : string) :
  HasSuffixByte (s +:+ String b t) c = HasSuffixByte (String b t) c.
Proof.
  induction s as [|a s IH]; [reflexivity|].
  change (String a s +:+ String b t) with (String a (s +:+ String b t)).
  destruct (s +:+ String b t) eqn:E; [destruct s; discriminate E|].
  exact IH.
Qed.

Lemma HasSuffixByte_count (c : ascii) (s : string) :
  HasSuffixByte s c = true -> 1 <= CountByte s c.
Proof.
  induction s as [|a s IH]; [discriminate|].
  cbn [HasSuffixByte CountByte]. destruct s.
  - intros ->. simpl. lia.
  - intros Hs. specialize (IH Hs). lia.
Qed.

Lemma string_length_app (s t : string) :
  String.length (s +:+ t) = String.length s + String.length t.
Proof. induction s as [|a s IH]; simpl; [reflexivity|]. rewrite IH. reflexivity. Qed.

Lemma string_app_cons (a : ascii) (s t : string) : String a s +:+ t = String a (s +:+ t).
Proof. reflexivity. Qed.

Lemma string_app_nil (t : string) : EmptyString +:+ t = t.
Proof. reflexivity. Qed.

Lemma string_app_assoc (s t u : string) : (s +:+ t) +:+ u = s +:+ (t +:+ u).
Proof.
  induction s as [|a s IH]; [reflexivity|].
  rewrite !string_app_cons, IH. reflexivity.
Qed.

Lemma string_app_empty_r (s : string) : s +:+ EmptyString = s.
Proof.
  induction s as [|a s IH]; [reflexivity|].
  rewrite string_app_cons, IH. reflexivity.
Qed.

Lemma Cut_absent (c : ascii) (s : string) :
  all (other c) s = true -> Cut s (String c EmptyString) = (s, EmptyString, false).
Proof. intros Hs. unfold Cut. rewrite Index_absent by exact Hs. reflexivity. Qed.

Lemma Cut_first (c : ascii) (s t : string) :
  all (other c) s = true -> Cut (s +:+ String c t) (String c EmptyString) = (s, t, true).
Proof.
  intros Hs. unfold Cut. rewrite Index_first by exact Hs.
  rewrite string_take_app, string_drop_app. reflexivity.
Qed.
End StringFacts.

Section UrlFacts.
Import Strings url.

Ltac ascii_cases c :=
  destruct c as [[] [] [] [] [] [] [] []]; vm_compute; intuition congruence.

Lemma authchar_facts (c : ascii) :
  authchar c = true ->
  Ascii.eqb c "%" = false /\ Ascii.eqb c "+" = false
  /\ shouldEscape c encodeHost = false
  /\ other "@" c = true /\ other "/" c = true /\ other "[" c = true
  /\ querychar c = true /\ pathchar c = true.
Proof. ascii_cases c. Qed.

Lemma hostchar_facts (c : ascii) :
  hostchar c = true -> authchar c = true /\ other ":" c = true.
Proof. ascii_cases c. Qed.

Lemma digit_facts (c : ascii) :
  isdigit c = true -> authchar c = true /\ other ":" c = true.
Proof. ascii_cases c. Qed.

Lemma schemechar_facts (c : ascii) :
  schemechar c = true ->
  querychar c = true /\ pathchar c = true
  /\ (isalpha c = true \/ (isalpha c = false /\ isdigit c || oneOf c "+-." = true)).
Proof. ascii_cases c. Qed.

Lemma isalpha_facts (c : ascii) :
  isalpha c = true -> schemechar c = true /\ c <> "*"%char.
Proof. ascii_cases c. Qed.
End UrlFacts.

Section UrlParse.
Import Strings url.

Lemma getScheme_from_colon (raw rest s : string) :
  forall i, 0 < i -> all schemechar s = true ->
    getScheme_from raw (s +:+ String ":" rest) i
    = inr (take (i + String.length s) raw, drop (i + String.length s + 1) raw).
Proof.
  induction s as [|a s IH]; intros i Hi Hs.
  - rewrite string_app_nil. simpl. rewrite decide_False by lia.
    rewrite Nat.add_0_r. reflexivity.
  - rewrite string_app_cons. cbn [all] in Hs. apply andb_true_iff in Hs as [Ha Hs].
    cbn [getScheme_from String.length].
    replace (i + S (String.length s)) with (S i + String.length s) by lia.
    destruct (schemechar_facts a Ha) as (_ & _ & [Halpha|[Halpha Hrest]]).
    + rewrite Halpha. apply IH; [lia|exact Hs].
    + rewrite Halpha, Hrest. rewrite decide_False by lia. apply IH; [lia|exact Hs].
Qed.

Lemma getScheme_scheme (c : ascii) (s rest : string) :
  isalpha c = true -> all schemechar s = true ->
  getScheme (String c s +:+ String ":" rest) = inr (String c s, rest).
Proof.
  intros Hc Hs. unfold getScheme. rewrite string_app_cons.
  cbn [getScheme_from]. rewrite Hc.
  rewrite getScheme_from_colon by (lia || exact Hs).
  rewrite <- (string_app_cons c s (String ":" rest)).
  change (1 + String.length s) with (String.length (String c s)).
  rewrite string_take_app, string_drop_app. reflexivity.
Qed.

Lemma unescape_check_auth (s : string) :
  all authchar s = true -> unescape_check s encodeHost = None.
Proof.
  induction s as [|a s IH]; [reflexivity|].
  cbn [all]. intros [Ha Hs]%andb_true_iff.
  destruct (authchar_facts a Ha) as (Hp & Hplus & Hesc & _).
  cbn [unescape_check]. rewrite Hp, Hplus, Hesc, andb_false_r. exact (IH Hs).
Qed.

Lemma unescape_text_auth (s : string) :
  all authchar s = true -> unescape_text s encodeHost = s.
Proof.
  induction s as [|a s IH]; [reflexivity|].
  cbn [all]. intros [Ha Hs]%andb_true_iff.
  destruct (authchar_facts a Ha) as (Hp & Hplus & _).
  cbn [unescape_text]. rewrite Hp, Hplus, (IH Hs). reflexivity.
Qed.

Lemma unescape_auth (s : string) :
  all authchar s = true -> unescape s encodeHost = inr s.
Proof.
  intros Hs. unfold unescape.
  rewrite unescape_check_auth, unescape_text_auth by exact Hs. reflexivity.
Qed.


Lemma all_authority (host : string) (port : option string) :
  all hostchar host = true -> all isdigit (default EmptyString port) = true ->
  all authchar (host +:+ colonPort port) = true.
Proof.
  intros Hh Hp. rewrite string_all_app. apply andb_true_iff. split.
  - eapply string_all_impl; [|exact Hh]. intros a Ha. apply hostchar_facts, Ha.
  - destruct port as [p|]; [|reflexivity]. cbn [colonPort all].
    apply andb_true_iff. split; [reflexivity|].
    eapply string_all_impl; [|exact Hp]. intros a Ha. apply digit_facts, Ha.
Qed.

Lemma HasPrefix_char (c a : ascii) (s : string) :
  HasPrefix (String a s) (String c EmptyString) = Ascii.eqb a c.
Proof.
  unfold HasPrefix. simpl. destruct (ascii_dec c a) as [->|Hne].
  - rewrite Ascii.eqb_refl. destruct s; reflexivity.
  - symmetry. apply Ascii.eqb_neq. congruence.
Qed.

Lemma HasPrefix_bracket (s : string) :
  all authchar s = true -> HasPrefix s "[" = false.
Proof.
  destruct s as [|a s]; [reflexivity|]. cbn [all].
  intros [Ha _]%andb_true_iff.
  destruct (authchar_facts a Ha) as (_ & _ & _ & _ & _ & Hb & _).
  rewrite HasPrefix_char. unfold other in Hb.
  destruct (Ascii.eqb a "["); [discriminate Hb|reflexivity].
Qed.

Lemma LastIndex_colon (host : string) (port : option string) :
  all hostchar host = true -> all isdigit (default EmptyString port) = true ->
  LastIndex (host +:+ colonPort port) ":"
  = match port with Some _ => Some (String.length host) | None => None end.
Proof.
  intros Hh Hp. destruct port as [p|]; cbn [colonPort].
  - apply LastIndex_last. eapply string_all_impl; [|exact Hp].
    intros a Ha. apply digit_facts, Ha.
  - rewrite string_app_empty_r. apply LastIndex_absent. eapply string_all_impl; [|exact Hh].
    intros a Ha. apply hostchar_facts, Ha.
Qed.

Lemma parseHost_authority (host : string) (port : option string) :
  all hostchar host = true -> all isdigit (default EmptyString port) = true ->
  parseHost (host +:+ colonPort port) = inr (host +:+ colonPort port).
Proof.
  intros Hh Hp. unfold parseHost.
  rewrite HasPrefix_bracket by (apply all_authority; assumption).
  rewrite LastIndex_colon by assumption.
  destruct port as [p|]; [|apply unescape_auth, all_authority; assumption].
  replace (String.length host) with (String.length host + 0) by lia.
  rewrite string_drop_app, string_drop_0. cbn [colonPort validOptionalPort].
  change (all isdigit p = true) in Hp. rewrite Hp. cbn [negb andb Ascii.eqb].
  change (Ascii.eqb ":" ":") with true. cbn [andb negb].
  apply unescape_auth, (all_authority host (Some p)); assumption.
Qed.

Lemma parseAuthority_authority (host : string) (port : option string) :
  all hostchar host = true -> all isdigit (default EmptyString port) = true ->
  parseAuthority (host +:+ colonPort port) = inr (None, host +:+ colonPort port).
Proof.
  intros Hh Hp. unfold parseAuthority.
  rewrite LastIndex_absent.
  - rewrite parseHost_authority by assumption. reflexivity.
  - eapply string_all_impl; [|apply all_authority; eassumption].
    intros a Ha. apply authchar_facts, Ha.
Qed.

Lemma splitHostPort_authority (host : string) (port : option string) :
  all hostchar host = true -> all isdigit (default EmptyString port) = true ->
  splitHostPort (host +:+ colonPort port) = (host, default EmptyString port).
Proof.
  intros Hh Hp. unfold splitHostPort.
  rewrite LastIndex_colon by assumption.
  assert (Hb : HasPrefix host "[" = false).
  { apply HasPrefix_bracket. eapply string_all_impl; [|exact Hh].
    intros a Ha. apply hostchar_facts, Ha. }
  destruct port as [p|].
  - replace (drop (String.length host) (host +:+ colonPort (Some p)))
      with (colonPort (Some p))
      by (replace (String.length host) with (String.length host + 0) by lia;
          rewrite string_drop_app, string_drop_0; reflexivity).
    cbn [colonPort validOptionalPort]. change (all isdigit p = true) in Hp. rewrite Hp.
    change (Ascii.eqb ":" ":") with true. cbn [andb].
    rewrite string_take_app, string_drop_app, Hb. reflexivity.
  - cbn [colonPort]. rewrite string_app_empty_r, Hb. reflexivity.
Qed.


Lemma query_split (pre : string) (query : option string) :
  all (other "?") pre = true ->
  (if HasSuffixByte (pre +:+ questionQuery query) "?"
      && (CountByte (pre +:+ questionQuery query) "?" =? 1)%nat
   then (take (String.length (pre +:+ questionQuery query) - 1)
           (pre +:+ questionQuery query), EmptyString, true)
   else let '(before, after, _) := Cut (pre +:+ questionQuery query) "?" in
        (before, after, false))
  = (pre, default EmptyString query, bool_decide (query = Some EmptyString)).
Proof.
  intros Hpre. destruct query as [q|]; cbn [questionQuery default].
  - rewrite HasSuffixByte_app, CountByte_app, (CountByte_absent _ _ Hpre).
    rewrite Cut_first by exact Hpre.
    destruct q as [|b q].
    + change (HasSuffixByte "?" "?") with true.
      change (CountByte "?" "?") with 1. cbn [Nat.add Nat.eqb andb].
      rewrite string_length_app. change (String.length "?") with 1.
      replace (String.length pre + 1 - 1) with (String.length pre) by lia.
      rewrite string_take_app. reflexivity.
    + rewrite bool_decide_eq_false_2 by discriminate.
      destruct (HasSuffixByte (String "?" (String b q)) "?") eqn:Hsuf;
        [|reflexivity].
      change (HasSuffixByte (String "?" (String b q)) "?")
        with (HasSuffixByte (String b q) "?") in Hsuf.
      apply HasSuffixByte_count in Hsuf.
      change (CountByte (String "?" (String b q)) "?")
        with (S (CountByte (String b q) "?")).
      destruct (CountByte (String b q) "?"); [lia|reflexivity].
  - rewrite string_app_empty_r, (HasSuffixByte_absent _ _ Hpre).
    rewrite Cut_absent by exact Hpre. reflexivity.
Qed.

Lemma authority_split (authority path : string) :
  all (other "/") authority = true ->
  negb (nonempty path) || HasPrefix path "/" = true ->
  match Index (authority +:+ path) "/" with
  | Some i => (take i (authority +:+ path), drop i (authority +:+ path))
  | None => (authority +:+ path, EmptyString)
  end = (authority, path).
Proof.
  intros Hauth Hpath. destruct path as [|a p].
  - rewrite string_app_empty_r, Index_absent by exact Hauth. reflexivity.
  - cbn [nonempty negb orb] in Hpath. rewrite HasPrefix_char in Hpath.
    apply Ascii.eqb_eq in Hpath. subst a.
    rewrite Index_first by exact Hauth.
    rewrite string_take_app.
    replace (String.length authority) with (String.length authority + 0) by lia.
    rewrite string_drop_app, string_drop_0. reflexivity.
Qed.

Lemma HasPrefix_slashes (s : string) :
  HasPrefix (String "/" (String "/" s)) "//" = true.
Proof. unfold HasPrefix. destruct s; reflexivity. Qed.

Lemma well_formed_origin_inv (scheme host : string) (port : option string)
    (path : string) (query : option string) :
  well_formed_origin scheme host port path query = true ->
  (exists c s, scheme = String c s /\ isalpha c = true /\ all schemechar s = true)
  /\ all hostchar host = true
  /\ all isdigit (default EmptyString port) = true
  /\ negb (nonempty path) || HasPrefix path "/" = true
  /\ all pathchar path = true
  /\ unescape_check path encodePath = None
  /\ all querychar (default EmptyString query) = true.
Proof.
  unfold well_formed_origin. rewrite !andb_true_iff.
  intros ((((((Hs & Hh) & Hp) & Hroot) & Hpath) & Hesc) & Hq).
  apply bool_decide_eq_true_1 in Hesc. repeat split; try assumption.
  destruct scheme as [|c s]; [discriminate Hs|].
  apply andb_true_iff in Hs as [Hc Hs]. exists c, s. auto.
Qed.

(** What [Parse] makes of a well-formed origin text. *)
Lemma Parse_origin_text (scheme host : string) (port : option string)
    (path : string) (query : option string) :
  well_formed_origin scheme host port path query = true ->
  Parse (origin_text scheme host port path query)
  = inr {| Scheme := ToLower scheme; Opaque := EmptyString; User := None;
           Host := host +:+ colonPort port;
           Path := unescape_text path encodePath; OmitHost := false;
           ForceQuery := bool_decide (query = Some EmptyString);
           RawQuery := default EmptyString query;
           Fragment := EmptyString |}.
Proof.
  intros (Hscheme & Hh & Hp & Hroot & Hpath & Hesc & Hq)%well_formed_origin_inv.
  destruct Hscheme as (c & s & -> & Hc & Hs).
  pose proof (all_authority host port Hh Hp) as Hauth.
  set (authority := host +:+ colonPort port) in *.
  assert (Hpre : all pathchar (String "/" (String "/" (authority +:+ path))) = true).
  { cbn [all]. rewrite string_all_app, Hpath, andb_true_r.
    change (pathchar "/") with true. cbn [andb].
    eapply string_all_impl; [|exact Hauth]. intros a Ha. apply authchar_facts, Ha. }
  assert (Hraw : origin_text (String c s) host port path query
                 = String c s +:+ String ":"
                     (String "/" (String "/" (authority +:+ path)) +:+ questionQuery query)).
  { unfold origin_text, authority. rewrite !string_app_cons, !string_app_assoc. reflexivity. }
  assert (Hall : all querychar (origin_text (String c s) host port path query) = true).
  { rewrite Hraw, string_all_app. apply andb_true_iff. split.
    - cbn [all]. apply andb_true_iff. split.
      + apply schemechar_facts, isalpha_facts, Hc.
      + eapply string_all_impl; [|exact Hs]. intros a Ha. apply schemechar_facts, Ha.
    - cbn [all]. change (querychar ":") with true. cbn [andb].
      rewrite string_all_app. apply andb_true_iff. split.
      + eapply string_all_impl; [|exact Hpre]. intros a [_ Ha]%andb_true_iff. exact Ha.
      + destruct query as [q|]; [|reflexivity]. cbn [questionQuery all].
        change (querychar "?") with true. exact Hq. }
  unfold Parse.
  rewrite Cut_absent
    by (eapply string_all_impl; [|exact Hall]; intros a [Ha _]%andb_true_iff; exact Ha).
  cbn [nonempty].
  assert (Hparse : parse (origin_text (String c s) host port path query)
                   = inr {| Scheme := ToLower (String c s); Opaque := EmptyString;
                            User := None; Host := authority;
                            Path := unescape_text path encodePath; OmitHost := false;
                            ForceQuery := bool_decide (query = Some EmptyString);
                            RawQuery := default EmptyString query;
                            Fragment := EmptyString |}).
  { unfold parse.
    assert (Hctl : stringContainsCTLByte (origin_text (String c s) host port path query)
                   = false).
    { unfold stringContainsCTLByte. apply negb_false_iff.
      eapply string_all_impl; [|exact Hall]. intros a [_ Ha]%andb_true_iff. exact Ha. }
    rewrite Hctl.
    rewrite bool_decide_eq_false_2.
    2:{ rewrite Hraw, string_app_cons. intros [= -> _].
        destruct (isalpha_facts _ Hc) as [_ Hstar]. apply Hstar; reflexivity. }
    rewrite Hraw, getScheme_scheme by assumption.
    cbn [mbind sum_bind].
    rewrite query_split
      by (eapply string_all_impl; [|exact Hpre]; intros a [Ha _]%andb_true_iff; exact Ha).
    rewrite HasPrefix_char, HasPrefix_slashes.
    change (Ascii.eqb "/" "/") with true.
    cbn [negb andb orb nonempty ToLower drop].
    rewrite authority_split.
    2:{ eapply string_all_impl; [|exact Hauth]. intros a Ha. apply authchar_facts, Ha. }
    2:{ exact Hroot. }
    unfold authority. rewrite parseAuthority_authority by assumption.
    cbn [mbind sum_bind]. unfold setPath, unescape. rewrite Hesc.
    reflexivity. }
  rewrite Hparse. reflexivity.
Qed.

Lemma Hostname_origin_text (scheme host : string) (port : option string)
    (path : string) (query : option string) :
  well_formed_origin scheme host port path query = true ->
  exists u, Parse (origin_text scheme host port path query) = inr u
            /\ Scheme u = ToLower scheme
            /\ Hostname u = host
            /\ Port u = default EmptyString port.
Proof.
  intros Hwf. eexists. split; [apply Parse_origin_text, Hwf|].
  apply well_formed_origin_inv in Hwf as (_ & Hh & Hp & _).
  unfold Hostname, Port. cbn [Host Scheme].
  rewrite splitHostPort_authority by assumption. auto.
Qed.
End UrlParse.

(** ** Verify: the origin *)

Section VerifyOrigin.
Import protocol.

(** Once the type and the challenge have passed, the verdict is the
    origin's: a text that does not parse is MalformedOrigin, and a parsed
    one is accepted exactly when its host name, without port, is the
    configured string. *)
Lemma Verify_origin_check (c : CollectedClientData) (storedChallenge : list byte)
    (relyingPartyOrigin : string) :
  challenge_passes (Challenge c) storedChallenge ->
  match url.Parse (Origin c) with
  | inl _ => rejects (Verify c storedChallenge (Type_ c) relyingPartyOrigin) MalformedOrigin
  | inr u =>
      (url.Hostname u = relyingPartyOrigin ->
       Verify c storedChallenge (Type_ c) relyingPartyOrigin = silent (Returns None))
      /\ (url.Hostname u <> relyingPartyOrigin ->
          rejects (Verify c storedChallenge (Type_ c) relyingPartyOrigin) OriginMismatch)
  end.
Proof.
  intros (b & Hdec & Henc). unfold Verify.
  rewrite bool_decide_eq_false_2 by (intros Hne; apply Hne; reflexivity).
  rewrite Hdec, Henc.
  rewrite bool_decide_eq_false_2 by (intros [e He]; discriminate He).
  unfold bytes_Equal. rewrite bool_decide_eq_true_2 by reflexivity. cbn [negb].
  destruct (url.Parse (Origin c)) as [e|u].
  - eexists. split; [reflexivity|]. split; reflexivity.
  - split; intros Hhost.
    + rewrite bool_decide_eq_false_2 by (intros Hne; apply Hne, Hhost). reflexivity.
    + rewrite bool_decide_eq_true_2 by exact Hhost.
      eexists. split; [reflexivity|]. split; reflexivity.
Qed.

(** C4, as the code has it: of a well-formed client origin
    [scheme://host[:port]path[?query]] that reaches the origin check only
    the host name is compared with the configured string.  The origin is
    accepted when the host equals it, whatever the scheme, port, path and
    query are, and rejected with OriginMismatch when the host differs. *)
Theorem Verify_origin_hostname_only (type : CeremonyType) (challenge : string)
    (tokenBinding : option TokenBinding) (storedChallenge : list byte)
    (relyingPartyOrigin scheme host : string) (port : option string)
    (path : string) (query : option string) :
  challenge_passes challenge storedChallenge ->
  well_formed_origin scheme host port path query = true ->
  let c := {| Type_ := type; Challenge := challenge;
              Origin := origin_text scheme host port path query;
              TokenBinding_ := tokenBinding |} in
  (host = relyingPartyOrigin ->
   accepts (Verify c storedChallenge type relyingPartyOrigin))
  /\ (host <> relyingPartyOrigin ->
      rejects (Verify c storedChallenge type relyingPartyOrigin) OriginMismatch).
Proof.
  intros Hch Hwf c.
  pose proof (Verify_origin_check c storedChallenge relyingPartyOrigin Hch) as Hcheck.
  destruct (Hostname_origin_text _ _ _ _ _ Hwf) as (u & Hparse & _ & Hhost & _).
  cbn [Origin c] in Hcheck. rewrite Hparse, Hhost in Hcheck.
  destruct Hcheck as [Hyes Hno]. split.
  - intros Heq. unfold accepts. change type with (Type_ c).
    rewrite (Hyes Heq). reflexivity.
  - exact Hno.
Qed.

Lemma challenge_passes_empty : challenge_passes EmptyString [].
Proof. exists []. split; reflexivity. Qed.

(** What else passes the challenge step: the base64 text of the base64 text
    of the stored challenge. *)
Example challenge_passes_twice_encoded : challenge_passes "QUE9PQ" [x00].
Proof. exists (bytes_of_string "AA=="). split; vm_compute; reflexivity. Qed.

(** A login over plain http on port 8080, with a path and a query, at a
    Relying Party configured with [example.com]. *)
Lemma Verify_origin_hostname_only_witness :
  challenge_passes EmptyString []
  /\ well_formed_origin "http" "example.com" (Some "8080") "/login" (Some "next=1") = true
  /\ accepts (Verify (Fixture.clientData AssertCeremony EmptyString
                        "http://example.com:8080/login?next=1")
                [] AssertCeremony "example.com").
Proof.
  split; [exact challenge_passes_empty|]. split; [reflexivity|].
  exact (proj1 (Verify_origin_hostname_only AssertCeremony EmptyString None []
                  "example.com" "http" "example.com" (Some "8080") "/login"
                  (Some "next=1") challenge_passes_empty eq_refl) eq_refl).
Defined.

(** C4, at two client origins that differ in scheme and in port: both are
    accepted by a Relying Party configured with [example.com]; and a
    Relying Party configured with the origin [https://example.com] rejects
    that very origin, because a host name never equals it. *)
Lemma Verify_accepts_other_scheme_and_port :
  exists a b,
    url.Parse "https://example.com" = inr a
    /\ url.Parse "http://example.com:8080" = inr b
    /\ url.Scheme a <> url.Scheme b
    /\ url.Port a <> url.Port b
    /\ accepts (Verify (Fixture.clientData AssertCeremony EmptyString
                          "https://example.com")
                  [] AssertCeremony "example.com")
    /\ accepts (Verify (Fixture.clientData AssertCeremony EmptyString
                          "http://example.com:8080")
                  [] AssertCeremony "example.com")
    /\ rejects (Verify (Fixture.clientData AssertCeremony EmptyString
                          "https://example.com")
                  [] AssertCeremony "https://example.com") OriginMismatch.
Proof.
  eexists _, _. split; [vm_compute; reflexivity|]. split; [vm_compute; reflexivity|].
  split; [vm_compute; discriminate|]. split; [vm_compute; discriminate|].
  split; [vm_compute; reflexivity|]. split; [vm_compute; reflexivity|].
  eexists. split; [vm_compute; reflexivity|]. split; reflexivity.
Qed.

End VerifyOrigin.

(** ** Verify: what is accepted *)

Section VerifyAccepts.
Import protocol.



End VerifyAccepts.

(** * Further properties *)

Ltac split_cmp :=
  repeat match goal with
  | |- context [N.leb ?a ?b] => destruct (N.leb_spec a b); try (exfalso; lia)
  | |- context [N.ltb ?a ?b] => destruct (N.ltb_spec a b); try (exfalso; lia)
  end.

Ltac close_bits :=
  rewrite ?andb_true_r, ?andb_false_r, ?orb_false_r, ?orb_false_l,
    ?andb_true_l, ?andb_false_l;
  try reflexivity; try (f_equal; lia).

Ltac ascii_all c :=
  destruct c as [[] [] [] [] [] [] [] []]; vm_compute; intuition congruence.

(** ** base64: decoding undoes encoding *)

Section Bits.
Import base64.
Local Open Scope N_scope.

Lemma testbit_shiftl (a n m : N) :
  N.testbit (N.shiftl a n) m = (n <=? m) && N.testbit a (m - n).
Proof.
  destruct (N.leb_spec n m) as [Hle|Hlt].
  - rewrite N.shiftl_spec_high' by exact Hle. reflexivity.
  - rewrite N.shiftl_spec_low by exact Hlt. reflexivity.
Qed.

Lemma testbit_ones (n m : N) : N.testbit (N.ones n) m = (m <? n).
Proof.
  destruct (N.ltb_spec m n) as [Hlt|Hle].
  - apply N.ones_spec_low, Hlt.
  - apply N.ones_spec_high, Hle.
Qed.

Lemma testbit_sextet (val k i : N) :
  N.testbit (sextet val k) i = N.testbit val (i + k) && (i <? 6).
Proof.
  unfold sextet. rewrite N.land_spec, N.shiftr_spec'.
  change 63 with (N.ones 6). rewrite testbit_ones. reflexivity.
Qed.

Lemma testbit_byte_high (b : byte) (i : N) :
  8 <= i -> N.testbit (uint_of_byte b) i = false.
Proof.
  intros Hi. unfold uint_of_byte.
  pose proof (Byte.to_N_bounded b) as Hb.
  destruct (N.eq_dec (Byte.to_N b) 0) as [->|Hnz]; [apply N.bits_0|].
  apply N.bits_above_log2.
  apply N.lt_le_trans with 8; [|exact Hi].
  apply N.log2_lt_pow2; [lia|]. change (2 ^ 8) with 256. lia.
Qed.

(** [byte(v)] looks at the low eight bits only. *)
Lemma byte_of_uint_ext (x y : N) :
  (forall i, i < 8 -> N.testbit x i = N.testbit y i) ->
  byte_of_uint x = byte_of_uint y.
Proof.
  intros Hbits. unfold byte_of_uint. f_equal. f_equal.
  apply N.bits_inj. intros i. rewrite !N.land_spec.
  change 255 with (N.ones 8). rewrite testbit_ones.
  destruct (N.ltb_spec i 8) as [Hlt|Hle].
  - rewrite (Hbits i Hlt). reflexivity.
  - rewrite !andb_false_r. reflexivity.
Qed.

Lemma byte_of_uint_of_byte (b : byte) : byte_of_uint (uint_of_byte b) = b.
Proof. destruct b; reflexivity. Qed.





Lemma testbit_recombine (s0 s1 s2 s3 n : N) :
  N.testbit (recombine s0 s1 s2 s3) n
  = (18 <=? n) && N.testbit s0 (n - 18) || (12 <=? n) && N.testbit s1 (n - 12)
    || (6 <=? n) && N.testbit s2 (n - 6) || N.testbit s3 n.
Proof. unfold recombine. rewrite !N.lor_spec, !testbit_shiftl. reflexivity. Qed.

(** The bits of [val] that survive the trip through the sextets. *)
Lemma testbit_recombine_4 (val n : N) :
  N.testbit (recombine (sextet val 18) (sextet val 12) (sextet val 6) (sextet val 0)) n
  = N.testbit val n && (n <? 24).
Proof.
  rewrite testbit_recombine, !testbit_sextet. split_cmp; close_bits.
Qed.

Lemma testbit_recombine_3 (val n : N) :
  N.testbit (recombine (sextet val 18) (sextet val 12) (sextet val 6) 0) n
  = N.testbit val n && (n <? 24) && (6 <=? n).
Proof.
  rewrite testbit_recombine, !testbit_sextet, N.bits_0. split_cmp; close_bits.
Qed.

Lemma testbit_recombine_2 (val n : N) :
  N.testbit (recombine (sextet val 18) (sextet val 12) 0 0) n
  = N.testbit val n && (n <? 24) && (12 <=? n).
Proof.
  rewrite testbit_recombine, !testbit_sextet, !N.bits_0. split_cmp; close_bits.
Qed.


Lemma testbit_group (b0 b1 b2 : byte) (n : N) :
  N.testbit (group b0 b1 b2) n
  = if 16 <=? n then N.testbit (uint_of_byte b0) (n - 16)
    else if 8 <=? n then N.testbit (uint_of_byte b1) (n - 8)
    else N.testbit (uint_of_byte b2) n.
Proof.
  unfold group. rewrite !N.lor_spec, !testbit_shiftl.
  destruct (N.leb_spec 16 n) as [H16|H16].
  - rewrite (testbit_byte_high b1) by lia. rewrite (testbit_byte_high b2) by lia.
    close_bits.
  - destruct (N.leb_spec 8 n) as [H8|H8]; cbn [andb orb].
    + rewrite (testbit_byte_high b2) by lia. close_bits.
    + reflexivity.
Qed.

Lemma group_1 (b0 : byte) : N.shiftl (uint_of_byte b0) 16 = group b0 x00 x00.
Proof.
  unfold group. change (uint_of_byte x00) with 0.
  rewrite N.shiftl_0_l, !N.lor_0_r. reflexivity.
Qed.

Lemma group_2 (b0 b1 : byte) :
  N.lor (N.shiftl (uint_of_byte b0) 16) (N.shiftl (uint_of_byte b1) 8)
  = group b0 b1 x00.
Proof. unfold group. change (uint_of_byte x00) with 0. rewrite N.lor_0_r. reflexivity. Qed.


Lemma quantum_bytes_4 (b0 b1 b2 : byte) :
  let val := group b0 b1 b2 in
  quantum_bytes [sextet val 18; sextet val 12; sextet val 6; sextet val 0]
  = [b0; b1; b2].
Proof.
  intros val. unfold quantum_bytes. cbn [length Nat.sub take lookup list_lookup default from_option id].
  fold (recombine (sextet val 18) (sextet val 12) (sextet val 6) (sextet val 0)).
  rewrite <- (byte_of_uint_of_byte b0).
  rewrite <- (byte_of_uint_of_byte b1).
  rewrite <- (byte_of_uint_of_byte b2).
  f_equal; [|f_equal; [|f_equal]]; apply byte_of_uint_ext; intros i Hi;
    rewrite ?N.shiftr_spec', testbit_recombine_4; unfold val;
    rewrite testbit_group; split_cmp; close_bits.
Qed.

Lemma quantum_bytes_3 (b0 b1 : byte) :
  let val := group b0 b1 x00 in
  quantum_bytes [sextet val 18; sextet val 12; sextet val 6] = [b0; b1].
Proof.
  intros val. unfold quantum_bytes. cbn [length Nat.sub take lookup list_lookup default from_option id].
  fold (recombine (sextet val 18) (sextet val 12) (sextet val 6) 0).
  rewrite <- (byte_of_uint_of_byte b0).
  rewrite <- (byte_of_uint_of_byte b1).
  f_equal; [|f_equal]; apply byte_of_uint_ext; intros i Hi;
    rewrite ?N.shiftr_spec', testbit_recombine_3; unfold val;
    rewrite testbit_group; split_cmp; close_bits.
Qed.

Lemma quantum_bytes_2 (b0 : byte) :
  let val := group b0 x00 x00 in
  quantum_bytes [sextet val 18; sextet val 12] = [b0].
Proof.
  intros val. unfold quantum_bytes. cbn [length Nat.sub take lookup list_lookup default from_option id].
  fold (recombine (sextet val 18) (sextet val 12) 0 0).
  rewrite <- (byte_of_uint_of_byte b0).
  f_equal; apply byte_of_uint_ext; intros i Hi;
    rewrite ?N.shiftr_spec', testbit_recombine_2; unfold val;
    rewrite testbit_group; split_cmp; close_bits.
Qed.

End Bits.

Section RoundTrip.
Import base64.

Lemma sextet_bound (val k : N) : (sextet val k < 64)%N.
Proof.
  unfold sextet. change 63%N with (N.ones 6). rewrite N.land_ones.
  apply N.mod_lt. discriminate.
Qed.

(** Every character of the alphabet decodes to its own position. *)
Lemma decodeMap_encodeAt (v : N) :
  (v < 64)%N -> decodeMap RawStdEncoding (encodeAt RawStdEncoding v) = Some v.
Proof.
  intros Hv.
  assert (Hall : forallb (fun n => bool_decide
                   (decodeMap RawStdEncoding (encodeAt RawStdEncoding (N.of_nat n))
                    = Some (N.of_nat n))) (seq 0 64) = true) by (vm_compute; reflexivity).
  rewrite forallb_forall in Hall.
  specialize (Hall (N.to_nat v)). rewrite N2Nat.id in Hall.
  assert (Hin : In (N.to_nat v) (seq 0 64)) by (apply in_seq; lia).
  apply Hall in Hin. apply bool_decide_eq_true in Hin. exact Hin.
Qed.

(** No character of the alphabet is a padding character or a newline. *)
Lemma decodeMap_sextet (val k : N) :
  decodeMap RawStdEncoding (encodeAt RawStdEncoding (sextet val k)) = Some (sextet val k).
Proof. apply decodeMap_encodeAt, sextet_bound. Qed.

Lemma decode_raw_cons (c : byte) (rest : list byte) (si : nat) (q : list N)
    (out : N) :
  decodeMap RawStdEncoding c = Some out ->
  decode_raw RawStdEncoding (c :: rest) si q
  = if decide (length (q ++ [out]) = 4) then
      let '(tl, err) := decode_raw RawStdEncoding rest (S si) [] in
      (quantum_bytes (q ++ [out]) ++ tl, err)
    else decode_raw RawStdEncoding rest (S si) (q ++ [out]).
Proof. intros Hc. cbn [decode_raw]. rewrite Hc. reflexivity. Qed.

End RoundTrip.

Ltac decode_char :=
  rewrite (decode_raw_cons _ _ _ _ _ (decodeMap_sextet _ _)); cbn [app length];
  first [rewrite decide_False by discriminate | rewrite decide_True by reflexivity].

Section RoundTripText.
Import base64.

(** Four characters of a full group decode to its three bytes. *)
Lemma decode_raw_group (b0 b1 b2 : byte) (rest : list byte) (si : nat) :
  decode_raw RawStdEncoding (raw_text [b0; b1; b2] ++ rest) si []
  = let '(tl, err) := decode_raw RawStdEncoding rest (si + 4) [] in
    ([b0; b1; b2] ++ tl, err).
Proof.
  cbn [raw_text app]. fold (group b0 b1 b2).
  do 4 decode_char. rewrite quantum_bytes_4.
  replace (S (S (S (S si)))) with (si + 4) by lia. reflexivity.
Qed.

(** Decoding undoes the unpadded encoding. *)
Lemma decode_raw_text (src : list byte) :
  forall si, decode_raw RawStdEncoding (raw_text src) si [] = (src, None).
Proof.
  induction src as [|b0|b0 b1|b0 b1 b2 rest IH] using list_ind3; intros si.
  - reflexivity.
  - cbn [raw_text]. rewrite group_1. do 2 decode_char.
    cbn [decode_raw]. rewrite quantum_bytes_2. reflexivity.
  - cbn [raw_text]. rewrite group_2. do 3 decode_char.
    cbn [decode_raw]. rewrite quantum_bytes_3. reflexivity.
  - change (raw_text (b0 :: b1 :: b2 :: rest)) with (raw_text [b0; b1; b2] ++ raw_text rest).
    rewrite decode_raw_group, IH. reflexivity.
Qed.

End RoundTripText.

Section RawEncode.
Import base64.

(** [RawStdEncoding.Encode] overwrites exactly the window it needs with the
    unpadded text of [src]. *)
Lemma encode_from_raw_text (src : list byte) :
  forall pre mid post : list byte,
    length mid = length (raw_text src) ->
    encode_from RawStdEncoding (pre ++ mid ++ post) (length pre) src
    = Some (pre ++ raw_text src ++ post).
Proof.
  induction src as [|b0|b0 b1|b0 b1 b2 rest IH] using list_ind3;
    intros pre mid post Hlen.
  - destruct mid; [reflexivity|discriminate Hlen].
  - destruct mid as [|x0 [|x1 [|]]]; try discriminate Hlen.
    cbn [encode_from padChar RawStdEncoding NoPadding app].
    rewrite store_at by (simpl; lia). cbn [mbind option_bind]. simpl insert.
    rewrite store_at by (simpl; lia). reflexivity.
  - destruct mid as [|x0 [|x1 [|x2 [|]]]]; try discriminate Hlen.
    cbn [encode_from padChar RawStdEncoding NoPadding app].
    rewrite store_at by (simpl; lia). cbn [mbind option_bind]. simpl insert.
    rewrite store_at by (simpl; lia). cbn [mbind option_bind]. simpl insert.
    rewrite store_at by (simpl; lia). reflexivity.
  - destruct mid as [|x0 [|x1 [|x2 [|x3 mid]]]]; try discriminate Hlen.
    cbn [raw_text length app] in Hlen.
    cbn [encode_from app].
    rewrite store_at by (simpl; lia). cbn [mbind option_bind]. simpl insert.
    rewrite store_at by (simpl; lia). cbn [mbind option_bind]. simpl insert.
    rewrite store_at by (simpl; lia). cbn [mbind option_bind]. simpl insert.
    rewrite store_at by (simpl; lia). cbn [mbind option_bind]. simpl insert.
    set (c0 := encodeAt _ _). set (c1 := encodeAt _ _).
    set (c2 := encodeAt _ _). set (c3 := encodeAt _ _).
    specialize (IH (pre ++ [c0; c1; c2; c3]) mid post ltac:(lia)).
    rewrite length_app in IH. cbn [length] in IH.
    rewrite <- !app_assoc in IH. cbn [app] in IH.
    rewrite IH. cbn [raw_text app]. reflexivity.
Qed.

Lemma length_raw_text (src : list byte) :
  length (raw_text src) = EncodedLen RawStdEncoding (length src).
Proof.
  induction src as [|b0|b0 b1|b0 b1 b2 rest IH] using list_ind3; try reflexivity.
  cbn [raw_text length app]. rewrite IH.
  unfold EncodedLen. cbn [padChar RawStdEncoding NoPadding].
  replace (S (S (S (length rest)))) with (length rest + 1 * 3) by lia.
  rewrite Nat.div_add, Nat.Div0.mod_add by lia. lia.
Qed.

(** [RawStdEncoding.EncodeToString]: encoding into a fresh buffer of
    [EncodedLen] bytes gives the unpadded text. *)
Lemma Encode_raw_text (src : list byte) :
  Encode RawStdEncoding (make (EncodedLen RawStdEncoding (length src))) src
  = Some (raw_text src).
Proof.
  unfold Encode.
  pose proof (encode_from_raw_text src []
                (make (EncodedLen RawStdEncoding (length src))) []) as Henc.
  rewrite !app_nil_r in Henc. cbn [app length] in Henc. apply Henc.
  rewrite length_make, length_raw_text. reflexivity.
Qed.

(** Four characters give at most three bytes. *)
Lemma decode_raw_length (enc : Encoding) (src : list byte) :
  forall (si : nat) (q : list N),
    length (decode_raw enc src si q).1 * 4 <= (length q + length src) * 3.
Proof.
  induction src as [|c rest IH]; intros si q.
  - cbn [decode_raw]. destruct q as [|s0 [|s1 q]]; cbn [fst length]; try lia.
    unfold quantum_bytes. rewrite length_take. cbn [length]. lia.
  - cbn [decode_raw]. destruct (decodeMap enc c) as [out|].
    + destruct (decide (length (q ++ [out]) = 4)) as [Hfull|Hmore].
      * specialize (IH (S si) []).
        destruct (decode_raw enc rest (S si) []) as [tl err]. cbn [fst] in *.
        rewrite length_app. unfold quantum_bytes. rewrite length_take.
        rewrite length_app in Hfull. cbn [length] in *. lia.
      * specialize (IH (S si) (q ++ [out])). rewrite length_app in IH.
        cbn [length] in *. lia.
    + destruct (is_newline c).
      * specialize (IH (S si) q). cbn [length]. lia.
      * cbn [fst length]. lia.
Qed.

Lemma length_bytes_of_string (s : string) :
  length (bytes_of_string s) = String.length s.
Proof. induction s as [|a s IH]; [reflexivity|]. cbn. f_equal. exact IH. Qed.

Lemma DecodeString_length (enc : Encoding) (s : string) :
  length (DecodeString enc s).1 * 4 <= String.length s * 3.
Proof.
  unfold DecodeString.
  pose proof (decode_raw_length enc (bytes_of_string s) 0 []) as Hlen.
  rewrite length_bytes_of_string in Hlen. exact Hlen.
Qed.

End RawEncode.

Section VerifyMore.
Import protocol.

(** X1: [Verify] returns (an error or [nil]) instead of panicking exactly
    when the type differs from the expected one, or the stored challenge is
    empty, or the client text decodes, error or not, to at least as many
    bytes as the padded base64 text of the stored challenge has. *)
Theorem Verify_returns_iff (c : CollectedClientData) (storedChallenge : list byte)
    (ceremony : CeremonyType) (relyingPartyOrigin : string) :
  (exists r, result (Verify c storedChallenge ceremony relyingPartyOrigin) = Returns r)
  <-> Type_ c <> ceremony
      \/ storedChallenge = []
      \/ base64.EncodedLen base64.StdEncoding (length storedChallenge)
         <= length (base64.DecodeString base64.RawStdEncoding (Challenge c)).1.
Proof.
  pose proof (Verify_panics_iff c storedChallenge ceremony relyingPartyOrigin) as Hp.
  split.
  - intros [r Hr].
    destruct (decide (Type_ c = ceremony)) as [Hty|Hty]; [|left; exact Hty].
    destruct (decide (storedChallenge = [])) as [Hnil|Hne]; [right; left; exact Hnil|].
    right. right. apply Nat.nlt_ge. intros Hlt.
    rewrite (proj2 Hp (conj Hty (conj Hne Hlt))) in Hr. discriminate Hr.
  - intros Hok.
    destruct (result (Verify c storedChallenge ceremony relyingPartyOrigin)) as [r|] eqn:Hres;
      [exists r; reflexivity|].
    exfalso. destruct (proj1 Hp eq_refl) as (Hty & Hne & Hlt).
    destruct Hok as [Hok|[Hok|Hok]]; [contradiction|contradiction|lia].
Qed.

Lemma Verify_returns_iff_witness :
  exists r,
    result (Verify (Fixture.clientData AssertCeremony "QUE9PQ" "https://example.com")
              [x00] AssertCeremony "example.com") = Returns r.
Proof.
  apply (proj2 (Verify_returns_iff
                  (Fixture.clientData AssertCeremony "QUE9PQ" "https://example.com")
                  [x00] AssertCeremony "example.com")).
  right. right. vm_compute. lia.
Defined.

(** The bytes decoded from a text no longer than the padded encoding of a
    non-empty challenge are fewer than that encoding has characters. *)
Lemma short_text_decodes_short (challenge : string) (storedChallenge : list byte) :
  storedChallenge <> [] ->
  String.length challenge
    <= base64.EncodedLen base64.StdEncoding (length storedChallenge) ->
  length (base64.DecodeString base64.RawStdEncoding challenge).1
    < base64.EncodedLen base64.StdEncoding (length storedChallenge).
Proof.
  intros Hne Hshort.
  pose proof (DecodeString_length base64.RawStdEncoding challenge) as Hdec.
  assert (Hpos : 0 < base64.EncodedLen base64.StdEncoding (length storedChallenge)).
  { pose proof (EncodedLen_Std_longer (length storedChallenge)) as Hl.
    destruct storedChallenge; [contradiction|]. cbn [length] in *. lia. }
  lia.
Qed.

(** X3: for a non-empty stored challenge and a matching type, every client
    challenge of at most as many characters as the padded base64 text of the
    stored challenge makes [Verify] panic, whatever the text is. *)
Theorem Verify_short_challenge_panics (c : CollectedClientData)
    (storedChallenge : list byte) (relyingPartyOrigin : string) :
  storedChallenge <> [] ->
  String.length (Challenge c)
    <= base64.EncodedLen base64.StdEncoding (length storedChallenge) ->
  result (Verify c storedChallenge (Type_ c) relyingPartyOrigin) = Panics.
Proof.
  intros Hne Hshort. apply Verify_panics_iff.
  split; [reflexivity|]. split; [exact Hne|].
  apply short_text_decodes_short; assumption.
Qed.

Lemma Verify_short_challenge_panics_witness :
  result (Verify (Fixture.clientData AssertCeremony "AA-_" "https://example.com")
            [x00; x01; x02] AssertCeremony "example.com") = Panics.
Proof.
  apply (Verify_short_challenge_panics
           (Fixture.clientData AssertCeremony "AA-_" "https://example.com")
           [x00; x01; x02] "example.com").
  - discriminate.
  - vm_compute. lia.
Defined.

Lemma length_string_of_bytes (b : list byte) :
  String.length (string_of_bytes b) = length b.
Proof. induction b as [|x b IH]; [reflexivity|]. cbn. f_equal. exact IH. Qed.

Lemma EncodedLen_Raw_le_Std (n : nat) :
  base64.EncodedLen base64.RawStdEncoding n <= base64.EncodedLen base64.StdEncoding n.
Proof.
  unfold base64.EncodedLen. cbn [base64.padChar base64.RawStdEncoding
    base64.StdEncoding base64.NoPadding].
  pose proof (Nat.div_mod_eq n 3) as Hn.
  pose proof (Nat.mod_upper_bound n 3 ltac:(lia)) as Hr.
  assert (Hcases : n `mod` 3 = 0 \/ n `mod` 3 = 1 \/ n `mod` 3 = 2) by lia.
  replace (n + 2) with (n `mod` 3 + 2 + (n / 3) * 3) by lia.
  rewrite Nat.div_add by lia.
  destruct Hcases as [-> | [-> | ->]]; cbn; lia.
Qed.

(** X4: a client that answers a non-empty stored challenge with that same
    challenge in standard base64, unpadded or padded, makes [Verify]
    panic. *)
Theorem Verify_echoed_challenge_panics (type : CeremonyType) (origin : string)
    (tokenBinding : option TokenBinding) (storedChallenge : list byte)
    (relyingPartyOrigin : string) (text : list byte) :
  storedChallenge <> [] ->
  text = raw_text storedChallenge \/ text = std_text storedChallenge ->
  result (Verify {| Type_ := type; Challenge := string_of_bytes text;
                    Origin := origin; TokenBinding_ := tokenBinding |}
            storedChallenge type relyingPartyOrigin) = Panics.
Proof.
  intros Hne Htext. apply Verify_panics_iff. cbn [Type_ Challenge].
  split; [reflexivity|]. split; [exact Hne|].
  apply short_text_decodes_short; [exact Hne|].
  rewrite length_string_of_bytes.
  destruct Htext as [-> | ->].
  - rewrite length_raw_text. apply EncodedLen_Raw_le_Std.
  - rewrite length_std_text. reflexivity.
Qed.

Lemma Verify_echoed_challenge_panics_witness :
  result (Verify {| Type_ := AssertCeremony;
                    Challenge := string_of_bytes (raw_text (replicate 32 x2a));
                    Origin := "https://example.com"; TokenBinding_ := None |}
            (replicate 32 x2a) AssertCeremony "example.com") = Panics.
Proof.
  apply (Verify_echoed_challenge_panics AssertCeremony "https://example.com" None
           (replicate 32 x2a) "example.com" (raw_text (replicate 32 x2a))).
  - discriminate.
  - left. reflexivity.
Defined.

End VerifyMore.

Section VerifyChallengeMore.
Import protocol.

Lemma DecodeString_string_of_bytes (enc : base64.Encoding) (text : list byte) :
  base64.DecodeString enc (string_of_bytes text) = base64.decode_raw enc text 0 [].
Proof.
  unfold base64.DecodeString, bytes_of_string, string_of_bytes.
  rewrite list_byte_of_string_of_list_byte. reflexivity.
Qed.



(** X6: the origin is looked at only after the challenge has passed: when
    the challenge step does not pass, the outcome is the same for every
    client origin and every configured origin. *)
Theorem Verify_challenge_before_origin (c : CollectedClientData)
    (storedChallenge : list byte) (ceremony : CeremonyType)
    (relyingPartyOrigin origin' relyingPartyOrigin' : string) :
  ~ challenge_passes (Challenge c) storedChallenge ->
  Verify {| Type_ := Type_ c; Challenge := Challenge c; Origin := origin';
            TokenBinding_ := TokenBinding_ c |}
    storedChallenge ceremony relyingPartyOrigin'
  = Verify c storedChallenge ceremony relyingPartyOrigin.
Proof.
  intros Hno. unfold Verify. cbn [Type_ Challenge Origin].
  destruct (bool_decide (Type_ c <> ceremony)); [reflexivity|].
  destruct (base64.DecodeString base64.RawStdEncoding (Challenge c)) as [b err] eqn:Hdec.
  destruct (base64.Encode base64.StdEncoding (make (length b)) storedChallenge)
    as [encoded|] eqn:Henc; [|reflexivity].
  destruct err as [e|].
  - rewrite bool_decide_eq_true_2 by (eexists; reflexivity). reflexivity.
  - rewrite bool_decide_eq_false_2 by (intros [e He]; discriminate He).
    unfold bytes_Equal. destruct (decide (encoded = b)) as [->|Hne].
    + exfalso. apply Hno. exists b. rewrite Hdec. split; [reflexivity|exact Henc].
    + rewrite bool_decide_eq_false_2 by exact Hne. reflexivity.
Qed.

Lemma mismatching_challenge : ~ challenge_passes "QUFB" [].
Proof.
  intros (b & Hdec & Henc). vm_compute in Hdec. injection Hdec as <-.
  vm_compute in Henc. discriminate Henc.
Qed.

Lemma Verify_challenge_before_origin_witness :
  Verify (Fixture.clientData AssertCeremony "QUFB" "http://evil.example")
    [] AssertCeremony "other.example"
  = Verify (Fixture.clientData AssertCeremony "QUFB" "https://example.com")
      [] AssertCeremony "example.com".
Proof.
  exact (Verify_challenge_before_origin
           (Fixture.clientData AssertCeremony "QUFB" "https://example.com")
           [] AssertCeremony "example.com" "http://evil.example" "other.example"
           mismatching_challenge).
Defined.



End VerifyChallengeMore.

Section VerifyAlphabet.
Import protocol.

(** A byte that is neither in the alphabet nor a line break stops the
    decoder with an error, wherever it stands. *)
Lemma decode_raw_foreign (enc : base64.Encoding) (a : byte) (src : list byte) :
  base64.decodeMap enc a = None -> base64.is_newline a = false -> In a src ->
  forall (si : nat) (q : list N), (base64.decode_raw enc src si q).2 <> None.
Proof.
  intros Hmap Hnl. induction src as [|c rest IH]; intros Hin si q; [destruct Hin|].
  cbn [base64.decode_raw].
  destruct (base64.decodeMap enc c) as [out|] eqn:Hc.
  - assert (Hrest : In a rest).
    { destruct Hin as [->|Hin]; [congruence|exact Hin]. }
    destruct (decide (length (q ++ [out]) = 4)).
    + specialize (IH Hrest (S si) []).
      destruct (base64.decode_raw enc rest (S si) []) as [tl err]. exact IH.
    + apply IH, Hrest.
  - destruct (base64.is_newline c) eqn:Hcn.
    + assert (Hrest : In a rest).
      { destruct Hin as [->|Hin]; [congruence|exact Hin]. }
      apply IH, Hrest.
    + discriminate.
Qed.

(** X8: a client challenge that holds a byte outside the standard alphabet
    (the [-] and [_] of base64url, the padding [=], a blank) is never
    accepted and never compared: when the type matches, [Verify] either
    panics or returns the MalformedChallenge error without printing. *)
Theorem Verify_foreign_character (c : CollectedClientData)
    (storedChallenge : list byte) (relyingPartyOrigin : string) (a : byte) :
  In a (bytes_of_string (Challenge c)) ->
  base64.decodeMap base64.RawStdEncoding a = None ->
  base64.is_newline a = false ->
  result (Verify c storedChallenge (Type_ c) relyingPartyOrigin) = Panics
  \/ Verify c storedChallenge (Type_ c) relyingPartyOrigin
     = silent (Returns (Some (WithDetails ErrParsingData
                                "Error parsing the authenticator challenge"))).
Proof.
  intros Hin Hmap Hnl.
  pose proof (decode_raw_foreign base64.RawStdEncoding a _ Hmap Hnl Hin 0 []) as Herr.
  unfold Verify.
  rewrite bool_decide_eq_false_2 by (intros H; apply H; reflexivity).
  unfold base64.DecodeString.
  destruct (base64.decode_raw base64.RawStdEncoding (bytes_of_string (Challenge c)) 0 [])
    as [b err]. cbn [snd] in Herr.
  destruct (base64.Encode base64.StdEncoding (make (length b)) storedChallenge);
    [right|left; reflexivity].
  destruct err as [e|]; [|contradiction].
  rewrite bool_decide_eq_true_2 by (eexists; reflexivity). reflexivity.
Qed.

Lemma Verify_foreign_character_witness :
  result (Verify (Fixture.clientData AssertCeremony "ab-_" "https://example.com")
            [] AssertCeremony "example.com") = Panics
  \/ Verify (Fixture.clientData AssertCeremony "ab-_" "https://example.com")
       [] AssertCeremony "example.com"
     = silent (Returns (Some (WithDetails ErrParsingData
                                "Error parsing the authenticator challenge"))).
Proof.
  apply (Verify_foreign_character
           (Fixture.clientData AssertCeremony "ab-_" "https://example.com")
           [] "example.com" "-"%byte).
  - right. right. left. reflexivity.
  - reflexivity.
  - reflexivity.
Defined.

End VerifyAlphabet.

Section Base64Trips.
Import base64.

(** X9: decoding undoes encoding for the unpadded standard encoding: the
    text [Encode] writes into a buffer of [EncodedLen] bytes decodes, without
    error, to the bytes it was made from. *)
Theorem RawStdEncoding_round_trip (src : list byte) :
  exists text,
    Encode RawStdEncoding (make (EncodedLen RawStdEncoding (length src))) src
    = Some text
    /\ DecodeString RawStdEncoding (string_of_bytes text) = (src, None).
Proof.
  exists (raw_text src). split; [apply Encode_raw_text|].
  rewrite DecodeString_string_of_bytes. apply decode_raw_text.
Qed.

Lemma decodeMap_padding :
  decodeMap RawStdEncoding StdPadding = None /\ is_newline StdPadding = false.
Proof. split; reflexivity. Qed.

Lemma decode_raw_std_text (src : list byte) :
  forall si,
    decode_raw RawStdEncoding (std_text src) si []
    = if decide (length src `mod` 3 = 0) then (src, None)
      else (take (length src / 3 * 3) src,
            Some (CorruptInput (si + length src / 3 * 4 + length src `mod` 3 + 1))).
Proof.
  induction src as [|b0|b0 b1|b0 b1 b2 rest IH] using list_ind3; intros si.
  - reflexivity.
  - cbn [std_text]. change (encodeAt StdEncoding) with (encodeAt RawStdEncoding).
    rewrite group_1. do 2 decode_char.
    cbn [decode_raw]. destruct decodeMap_padding as [-> ->].
    cbn. do 3 f_equal. lia.
  - cbn [std_text]. change (encodeAt StdEncoding) with (encodeAt RawStdEncoding).
    rewrite group_2. do 3 decode_char.
    cbn [decode_raw]. destruct decodeMap_padding as [-> ->].
    cbn. do 3 f_equal. lia.
  - change (std_text (b0 :: b1 :: b2 :: rest))
      with (raw_text [b0; b1; b2] ++ std_text rest).
    rewrite decode_raw_group, IH. cbn [length].
    replace (S (S (S (length rest)))) with (length rest + 1 * 3) by lia.
    rewrite Nat.div_add, Nat.Div0.mod_add by lia.
    destruct (decide (length rest `mod` 3 = 0)); [reflexivity|].
    replace ((length rest / 3 + 1) * 3) with (3 + length rest / 3 * 3) by lia.
    cbn [take app Nat.add]. do 3 f_equal. lia.
Qed.

(** X10: the two encodings [Verify] uses do not agree: the padded text that
    [StdEncoding.Encode] writes is decoded back by
    [RawStdEncoding.DecodeString] only when the length is a multiple of
    three; otherwise decoding stops with an error at the first padding
    character and returns the bytes of the full groups. *)
Theorem StdEncoding_text_through_RawStdEncoding (src : list byte) :
  exists text,
    Encode StdEncoding (make (EncodedLen StdEncoding (length src))) src = Some text
    /\ DecodeString RawStdEncoding (string_of_bytes text)
       = if decide (length src `mod` 3 = 0) then (src, None)
         else (take (length src / 3 * 3) src,
               Some (CorruptInput (length src / 3 * 4 + length src `mod` 3 + 1))).
Proof.
  exists (std_text src). split.
  - rewrite Encode_text by (rewrite length_make, length_std_text; reflexivity).
    rewrite drop_ge by (rewrite length_make, length_std_text; reflexivity).
    rewrite app_nil_r. reflexivity.
  - rewrite DecodeString_string_of_bytes, decode_raw_std_text. reflexivity.
Qed.

End Base64Trips.

(** ** Verify: more client origins *)

Section UrlAuthority.
Import Strings url.

(** What [Parse] makes of an origin text: the authority alone decides the
    user and the host, or the error. *)
Lemma Parse_with_authority (c : ascii) (s authority path : string)
    (query : option string) :
  isalpha c = true -> all schemechar s = true ->
  all authoritychar authority = true ->
  negb (nonempty path) || HasPrefix path "/" = true ->
  all pathchar path = true ->
  unescape_check path encodePath = None ->
  all querychar (default EmptyString query) = true ->
  Parse (origin_text_with (String c s) authority path query)
  = '(user, host) ← parseAuthority authority;
    inr {| Scheme := ToLower (String c s); Opaque := EmptyString; User := user;
           Host := host; Path := unescape_text path encodePath; OmitHost := false;
           ForceQuery := bool_decide (query = Some EmptyString);
           RawQuery := default EmptyString query;
           Fragment := EmptyString |}.
Proof.
  intros Hc Hs Hauth Hroot Hpath Hesc Hq.
  assert (Hpre : all pathchar (String "/" (String "/" (authority +:+ path))) = true).
  { cbn [all]. rewrite string_all_app, Hpath, andb_true_r.
    change (pathchar "/") with true. cbn [andb].
    eapply string_all_impl; [|exact Hauth]. intros a [_ Ha]%andb_true_iff. exact Ha. }
  assert (Hraw : origin_text_with (String c s) authority path query
                 = String c s +:+ String ":"
                     (String "/" (String "/" (authority +:+ path)) +:+ questionQuery query)).
  { unfold origin_text_with. rewrite !string_app_cons, !string_app_assoc. reflexivity. }
  assert (Hall : all querychar (origin_text_with (String c s) authority path query) = true).
  { rewrite Hraw, string_all_app. apply andb_true_iff. split.
    - cbn [all]. apply andb_true_iff. split.
      + apply schemechar_facts, isalpha_facts, Hc.
      + eapply string_all_impl; [|exact Hs]. intros a Ha. apply schemechar_facts, Ha.
    - cbn [all]. change (querychar ":") with true. cbn [andb].
      rewrite string_all_app. apply andb_true_iff. split.
      + eapply string_all_impl; [|exact Hpre]. intros a [_ Ha]%andb_true_iff. exact Ha.
      + destruct query as [q|]; [|reflexivity]. cbn [questionQuery all].
        change (querychar "?") with true. exact Hq. }
  unfold Parse.
  rewrite Cut_absent
    by (eapply string_all_impl; [|exact Hall]; intros a [Ha _]%andb_true_iff; exact Ha).
  cbn [nonempty].
  assert (Hparse : parse (origin_text_with (String c s) authority path query)
                   = '(user, host) ← parseAuthority authority;
                     inr {| Scheme := ToLower (String c s); Opaque := EmptyString;
                            User := user; Host := host;
                            Path := unescape_text path encodePath; OmitHost := false;
                            ForceQuery := bool_decide (query = Some EmptyString);
                            RawQuery := default EmptyString query;
                            Fragment := EmptyString |}).
  { unfold parse.
    assert (Hctl : stringContainsCTLByte
                     (origin_text_with (String c s) authority path query) = false).
    { unfold stringContainsCTLByte. apply negb_false_iff.
      eapply string_all_impl; [|exact Hall]. intros a [_ Ha]%andb_true_iff. exact Ha. }
    rewrite Hctl.
    rewrite bool_decide_eq_false_2.
    2:{ rewrite Hraw, string_app_cons. intros [= -> _].
        destruct (isalpha_facts _ Hc) as [_ Hstar]. apply Hstar; reflexivity. }
    rewrite Hraw, getScheme_scheme by assumption.
    cbn [mbind sum_bind].
    rewrite query_split
      by (eapply string_all_impl; [|exact Hpre]; intros a [Ha _]%andb_true_iff; exact Ha).
    rewrite HasPrefix_char, HasPrefix_slashes.
    change (Ascii.eqb "/" "/") with true.
    cbn [negb andb orb nonempty ToLower drop].
    rewrite authority_split.
    2:{ eapply string_all_impl; [|exact Hauth]. intros a [Ha _]%andb_true_iff. exact Ha. }
    2:{ exact Hroot. }
    destruct (parseAuthority authority) as [e|[user host]]; [reflexivity|].
    cbn [mbind sum_bind]. unfold setPath, unescape. rewrite Hesc.
    reflexivity. }
  rewrite Hparse.
  destruct (parseAuthority authority) as [e|[user host]]; reflexivity.
Qed.

End UrlAuthority.

Section UrlUserinfo.
Import Strings url.


Lemma hostchar_user_facts (c : ascii) :
  hostchar c = true ->
  isalpha c || isdigit c || oneOf c "-._:~!$&'()*+,;=%@" = true
  /\ Ascii.eqb c "%" = false /\ Ascii.eqb c "+" = false
  /\ other "@" c = true /\ other ":" c = true /\ authoritychar c = true.
Proof. ascii_all c. Qed.

Lemma authchar_authority (c : ascii) : authchar c = true -> authoritychar c = true.
Proof. ascii_all c. Qed.

Lemma isalpha_port_facts (c : ascii) :
  isalpha c = true ->
  isdigit c = false /\ other ":" c = true /\ authchar c = true.
Proof. ascii_all c. Qed.

Lemma Contains_absent (c : ascii) (s : string) :
  all (other c) s = true -> Contains s (String c EmptyString) = false.
Proof.
  intros Hs. unfold Contains. rewrite Index_absent by exact Hs.
  apply bool_decide_eq_false_2. intros [x Hx]. discriminate Hx.
Qed.



(** A port that starts with a letter is refused. *)
Lemma parseAuthority_bad_port (host port : string) :
  all hostchar host = true -> all isalpha port = true -> nonempty port = true ->
  parseAuthority (host +:+ String ":" port) = inl (InvalidPort (String ":" port)).
Proof.
  intros Hh Hp Hne. unfold parseAuthority.
  assert (Hpa : all authchar port = true)
    by (eapply string_all_impl; [|exact Hp]; intros a Ha; apply isalpha_port_facts, Ha).
  assert (Hpc : all (other ":") port = true)
    by (eapply string_all_impl; [|exact Hp]; intros a Ha; apply isalpha_port_facts, Ha).
  assert (Hauth : all authchar (host +:+ String ":" port) = true).
  { rewrite string_all_app. apply andb_true_iff. split.
    - eapply string_all_impl; [|exact Hh]. intros a Ha. apply hostchar_facts, Ha.
    - cbn [all]. exact Hpa. }
  rewrite LastIndex_absent
    by (eapply string_all_impl; [|exact Hauth]; intros a Ha; apply authchar_facts, Ha).
  unfold parseHost. rewrite HasPrefix_bracket by exact Hauth.
  rewrite LastIndex_last by exact Hpc.
  replace (String.length host) with (String.length host + 0) by lia.
  rewrite string_drop_app, string_drop_0. cbn [validOptionalPort].
  assert (Hdigits : all isdigit port = false).
  { destruct port as [|a port]; [discriminate Hne|]. cbn [all] in *.
    apply andb_true_iff in Hp as [Ha _].
    destruct (isalpha_port_facts a Ha) as [-> _]. reflexivity. }
  rewrite Hdigits, andb_false_r. reflexivity.
Qed.

End UrlUserinfo.

Section VerifyOriginMore.
Import protocol.



(** X12: a port that is not a number makes the client origin malformed: once
    the type and the challenge have passed, [Verify] returns the
    MalformedOrigin error for [scheme://host:port...] with a port of letters,
    whatever the host and the configured string are. *)
Theorem Verify_origin_bad_port (type : CeremonyType) (challenge : string)
    (tokenBinding : option TokenBinding) (storedChallenge : list byte)
    (relyingPartyOrigin scheme host port path : string) (query : option string) :
  challenge_passes challenge storedChallenge ->
  well_formed_origin scheme host None path query = true ->
  Strings.all url.isalpha port = true -> url.nonempty port = true ->
  rejects (Verify {| Type_ := type; Challenge := challenge;
                     Origin := origin_text_with scheme (host +:+ String ":" port)
                                 path query;
                     TokenBinding_ := tokenBinding |}
             storedChallenge type relyingPartyOrigin) MalformedOrigin.
Proof.
  intros Hch Hwf Hport Hne.
  set (c := {| Type_ := type; Challenge := challenge;
               Origin := origin_text_with scheme (host +:+ String ":" port) path query;
               TokenBinding_ := tokenBinding |}).
  apply well_formed_origin_inv in Hwf
    as ((a & s & -> & Ha & Hs) & Hh & _ & Hroot & Hpath & Hesc & Hq).
  pose proof (Verify_origin_check c storedChallenge relyingPartyOrigin Hch) as Hcheck.
  cbn [Origin c] in Hcheck.
  rewrite Parse_with_authority in Hcheck; try assumption.
  2:{ rewrite string_all_app. apply andb_true_iff. split.
      - eapply string_all_impl; [|exact Hh]. intros x Hx. apply hostchar_user_facts, Hx.
      - cbn [Strings.all]. change (authoritychar ":") with true. cbn [andb].
        eapply string_all_impl; [|exact Hport].
        intros x Hx. apply authchar_authority, isalpha_port_facts, Hx. }
  rewrite parseAuthority_bad_port in Hcheck by assumption.
  exact Hcheck.
Qed.

Lemma Verify_origin_bad_port_witness :
  rejects (Verify (Fixture.clientData AssertCeremony EmptyString
                     "https://example.com:https/login")
             [] AssertCeremony "example.com") MalformedOrigin.
Proof.
  exact (Verify_origin_bad_port AssertCeremony EmptyString None [] "example.com"
           "https" "example.com" "https" "/login" None
           challenge_passes_empty eq_refl eq_refl eq_refl).
Defined.

End VerifyOriginMore.

Section UrlBare.
Import Strings url.


Lemma hostchar_scheme_facts (c : ascii) :
  hostchar c = true ->
  (isalpha c = true \/ (isalpha c = false /\ isdigit c || oneOf c "+-." = true))
  /\ other "?" c = true /\ other "#" c = true /\ other "/" c = true
  /\ isCTL c = false /\ c <> "*"%char.
Proof. ascii_all c. Qed.

Lemma getScheme_from_none (raw s : string) :
  all hostchar s = true ->
  forall i, getScheme_from raw s i = inr (EmptyString, raw).
Proof.
  induction s as [|a s IH]; intros Hs i; [reflexivity|].
  cbn [all] in Hs. apply andb_true_iff in Hs as [Ha Hs].
  cbn [getScheme_from].
  destruct (hostchar_scheme_facts a Ha) as ([Halpha|[Halpha Hrest]] & _).
  - rewrite Halpha. apply IH, Hs.
  - rewrite Halpha, Hrest. destruct (decide (i = 0)); [reflexivity|apply IH, Hs].
Qed.

Lemma unescape_plain_path (s : string) :
  all hostchar s = true -> unescape s encodePath = inr s.
Proof.
  intros Hs. unfold unescape.
  induction s as [|a s IH]; [reflexivity|].
  cbn [all] in Hs. apply andb_true_iff in Hs as [Ha Hs].
  destruct (hostchar_user_facts a Ha) as (_ & Hp & Hplus & _).
  cbn [unescape_check unescape_text]. rewrite Hp, Hplus.
  rewrite bool_decide_eq_false_2 by (intros [H|H]; discriminate H).
  cbn [andb]. specialize (IH Hs).
  destruct (unescape_check s encodePath); [discriminate IH|].
  injection IH as ->. reflexivity.
Qed.

(** A text of letters, digits, dots and hyphens, with no scheme in front,
    is a relative path for [Parse]: no host at all. *)
Lemma Parse_bare_host (host : string) :
  all hostchar host = true ->
  Parse host
  = inr {| Scheme := EmptyString; Opaque := EmptyString; User := None;
           Host := EmptyString; Path := host; OmitHost := false;
           ForceQuery := false; RawQuery := EmptyString;
           Fragment := EmptyString |}.
Proof.
  intros Hh.
  assert (Hq : all (other "?") host = true)
    by (eapply string_all_impl; [|exact Hh]; intros a Ha; apply hostchar_scheme_facts, Ha).
  assert (Hf : all (other "#") host = true)
    by (eapply string_all_impl; [|exact Hh]; intros a Ha; apply hostchar_scheme_facts, Ha).
  assert (Hsl : all (other "/") host = true)
    by (eapply string_all_impl; [|exact Hh]; intros a Ha; apply hostchar_scheme_facts, Ha).
  assert (Hco : all (other ":") host = true)
    by (eapply string_all_impl; [|exact Hh]; intros a Ha; apply hostchar_facts, Ha).
  assert (Hctl : stringContainsCTLByte host = false).
  { unfold stringContainsCTLByte. apply negb_false_iff.
    eapply string_all_impl; [|exact Hh]. intros a Ha.
    destruct (hostchar_scheme_facts a Ha) as (_ & _ & _ & _ & -> & _). reflexivity. }
  assert (Hslash : HasPrefix host "/" = false).
  { destruct host as [|a host]; [reflexivity|]. rewrite HasPrefix_char.
    cbn [all] in Hsl. apply andb_true_iff in Hsl as [Ha _]. unfold other in Ha.
    destruct (Ascii.eqb a "/"); [discriminate Ha|reflexivity]. }
  assert (Hslash2 : HasPrefix host "//" = false).
  { destruct host as [|a host]; [reflexivity|].
    rewrite HasPrefix_char in Hslash. apply Ascii.eqb_neq in Hslash.
    change (HasPrefix (String a host) "//")
      with (if ascii_dec "/" a then String.prefix "/" host else false).
    destruct (ascii_dec "/" a) as [<-|_]; [contradiction|reflexivity]. }
  unfold Parse. rewrite Cut_absent by exact Hf. cbn [nonempty].
  assert (Hparse : parse host
                   = inr {| Scheme := EmptyString; Opaque := EmptyString; User := None;
                            Host := EmptyString; Path := host; OmitHost := false;
                            ForceQuery := false; RawQuery := EmptyString;
                            Fragment := EmptyString |}).
  { unfold parse. rewrite Hctl.
    rewrite bool_decide_eq_false_2.
    2:{ intros ->. cbn [all] in Hh. apply andb_true_iff in Hh as [Ha _].
        destruct (hostchar_scheme_facts _ Ha) as (_ & _ & _ & _ & _ & Hstar).
        apply Hstar. reflexivity. }
    unfold getScheme. rewrite getScheme_from_none by exact Hh.
    cbn [mbind sum_bind ToLower].
    rewrite (HasSuffixByte_absent _ _ Hq). cbn [andb].
    rewrite (Cut_absent _ _ Hq), Hslash. cbn [negb andb nonempty orb].
    rewrite (Cut_absent _ _ Hsl). cbn [fst].
    rewrite (Contains_absent _ _ Hco), Hslash2, andb_false_r.
    unfold setPath. rewrite unescape_plain_path by exact Hh. reflexivity. }
  rewrite Hparse. reflexivity.
Qed.

End UrlBare.

Section VerifyBare.
Import protocol.

(** X13: a client origin that is a bare host name, without a scheme, has no
    host for [Verify]: once the type and the challenge have passed it is
    rejected with OriginMismatch by every non-empty configured string, and
    accepted when the configured string is empty. *)
Theorem Verify_origin_without_scheme (c : CollectedClientData)
    (storedChallenge : list byte) (relyingPartyOrigin : string) :
  challenge_passes (Challenge c) storedChallenge ->
  Strings.all hostchar (Origin c) = true ->
  (relyingPartyOrigin = EmptyString ->
   accepts (Verify c storedChallenge (Type_ c) relyingPartyOrigin))
  /\ (relyingPartyOrigin <> EmptyString ->
      rejects (Verify c storedChallenge (Type_ c) relyingPartyOrigin) OriginMismatch).
Proof.
  intros Hch Hhost.
  pose proof (Verify_origin_check c storedChallenge relyingPartyOrigin Hch) as Hcheck.
  rewrite Parse_bare_host in Hcheck by exact Hhost.
  change (url.Hostname _) with EmptyString in Hcheck.
  destruct Hcheck as [Hyes Hno]. split.
  - intros ->. unfold accepts. rewrite (Hyes eq_refl). reflexivity.
  - intros Hne. apply Hno. intros Heq. apply Hne. symmetry. exact Heq.
Qed.

Lemma Verify_origin_without_scheme_witness :
  rejects (Verify (Fixture.clientData AssertCeremony EmptyString "example.com")
             [] AssertCeremony "example.com") OriginMismatch.
Proof.
  assert (Hne : "example.com" <> EmptyString) by discriminate.
  exact (proj2 (Verify_origin_without_scheme
                  (Fixture.clientData AssertCeremony EmptyString "example.com")
                  [] "example.com" challenge_passes_empty eq_refl) Hne).
Defined.

End VerifyBare.

(** ** BeginLogin: errors, order and defaults *)

Section BeginLoginMore.
Import Memory webauthn.
Context {U : Type} `{User U}.
Variable CreateChallenge : World -> (protocol.Error + slice) * World.

(** X14: [BeginLogin] fails exactly when the challenge generator fails; it
    then hands on the generator's error with no options and the empty
    session, and no modifier has run: the store is the one the generator
    left. *)
Theorem BeginLogin_error_iff (rp : WebAuthn) (user : U) (opts : list LoginOption)
    (w w' : World) (requestOptions : option PublicKeyCredentialRequestOptions)
    (sessionData : SessionData) (err : protocol.Error) :
  BeginLogin CreateChallenge rp user opts w
  = ((requestOptions, sessionData, Some err), w')
  <-> CreateChallenge w = (inl err, w')
      /\ requestOptions = None /\ sessionData = SessionData_zero.
Proof.
  unfold BeginLogin.
  destruct (CreateChallenge w) as [[e|challenge] w1].
  - split.
    + intros [= <- <- <- <-]. auto.
    + intros ([= -> ->] & -> & ->). reflexivity.
  - destruct (apply_opts opts _ w1) as [ro w2].
    split; [intros [= _ _ _]|intros ([=] & _)].
Qed.

Lemma apply_opts_app (opts opts' : list LoginOption)
    (o : PublicKeyCredentialRequestOptions) (w : World) :
  apply_opts (opts ++ opts') o w
  = apply_opts opts' (apply_opts opts o w).1 (apply_opts opts o w).2.
Proof.
  revert o w. induction opts as [|setter opts IH]; intros o w; [reflexivity|].
  cbn [app apply_opts]. destruct (setter o w) as [o1 w1]. apply IH.
Qed.

(** X15: modifiers run in the order given, each on the options and the
    store the earlier ones left: a modifier appended to the list is applied
    last, to the options [BeginLogin] would otherwise have returned, and the
    session is the same. *)
Theorem BeginLogin_modifiers_in_order (rp : WebAuthn) (user : U)
    (opts : list LoginOption) (setter : LoginOption) (w w1 : World)
    (requestOptions : PublicKeyCredentialRequestOptions) (sessionData : SessionData) :
  BeginLogin CreateChallenge rp user opts w
  = ((Some requestOptions, sessionData, None), w1) ->
  BeginLogin CreateChallenge rp user (opts ++ [setter]) w
  = ((Some (setter requestOptions w1).1, sessionData, None),
     (setter requestOptions w1).2).
Proof.
  unfold BeginLogin.
  destruct (CreateChallenge w) as [[e|challenge] w0]; [discriminate|].
  rewrite apply_opts_app.
  destruct (apply_opts opts _ w0) as [ro w2]. cbn [fst snd apply_opts].
  intros [= <- <- <-]. destruct (setter ro w2) as [ro' w3]. reflexivity.
Qed.

Lemma apply_opts_invariant (P : PublicKeyCredentialRequestOptions -> Prop)
    (opts : list LoginOption) :
  Forall (fun setter : LoginOption => forall o w, P o -> P (setter o w).1) opts ->
  forall o w, P o -> P (apply_opts opts o w).1.
Proof.
  induction 1 as [|setter rest Hsetter _ IH]; intros o w Ho; [exact Ho|].
  cbn [apply_opts]. specialize (Hsetter o w Ho).
  destruct (setter o w) as [o1 w1]. apply IH, Hsetter.
Qed.

(** X16: what no modifier touches keeps its default: when the generator
    succeeds, the returned options carry the configured timeout if every
    modifier leaves [Timeout] alone, and an empty allow-list if every
    modifier leaves [AllowedCredentials] alone. *)
Theorem BeginLogin_defaults_kept (rp : WebAuthn) (user : U)
    (opts : list LoginOption) (w w1 : World) (challenge : slice) :
  CreateChallenge w = (inr challenge, w1) ->
  exists requestOptions sessionData w',
    BeginLogin CreateChallenge rp user opts w
    = ((Some requestOptions, sessionData, None), w')
    /\ (Forall (fun setter : LoginOption =>
                  forall o w, Timeout (setter o w).1 = Timeout o) opts ->
        Timeout requestOptions = cTimeout (Config rp))
    /\ (Forall (fun setter : LoginOption =>
                  forall o w, AllowedCredentials (setter o w).1 = AllowedCredentials o)
               opts ->
        AllowedCredentials requestOptions = []).
Proof.
  intros Hcreate. unfold BeginLogin. rewrite Hcreate.
  set (o0 := {| Challenge := challenge; Timeout := cTimeout (Config rp);
                AllowedCredentials := [] |}).
  pose proof (fun P Hall => apply_opts_invariant P opts Hall o0 w1) as Hinv.
  destruct (apply_opts opts o0 w1) as [ro w']. cbn [fst] in Hinv.
  exists ro, {| sChallenge := challenge; UserID := WebAuthnID user |}, w'.
  split; [reflexivity|]. split; intros Hall.
  - apply (Hinv (fun o => Timeout o = cTimeout (Config rp))); [|reflexivity].
    eapply Forall_impl; [exact Hall|]. intros setter Hs o w2 Ho. rewrite Hs. exact Ho.
  - apply (Hinv (fun o => AllowedCredentials o = [])); [|reflexivity].
    eapply Forall_impl; [exact Hall|]. intros setter Hs o w2 Ho. rewrite Hs. exact Ho.
Qed.

End BeginLoginMore.

Lemma BeginLogin_error_iff_witness :
  let dry := {| Memory.heap := ∅; Memory.entropy := [] |} in
  exists err,
    webauthn.BeginLogin Fixture.CreateChallenge Fixture.rp Fixture.alice
      [Fixture.WithChallenge [x00]] dry
    = ((None, webauthn.SessionData_zero, Some err), dry).
Proof.
  intros dry. eexists.
  apply (proj2 (BeginLogin_error_iff Fixture.CreateChallenge Fixture.rp Fixture.alice
                  [Fixture.WithChallenge [x00]] dry dry None
                  webauthn.SessionData_zero _)).
  split; [reflexivity|]. split; reflexivity.
Defined.

Lemma BeginLogin_modifiers_in_order_witness :
  exists requestOptions sessionData w',
    webauthn.BeginLogin Fixture.CreateChallenge Fixture.rp Fixture.alice
      ([Fixture.WithTimeout 5000] ++ [Fixture.WithTimeout 7000]) Fixture.world
    = ((Some requestOptions, sessionData, None), w')
    /\ webauthn.Timeout requestOptions = 7000%Z.
Proof.
  eexists _, _, _. split.
  - apply (BeginLogin_modifiers_in_order Fixture.CreateChallenge Fixture.rp
             Fixture.alice [Fixture.WithTimeout 5000] (Fixture.WithTimeout 7000)
             Fixture.world).
    vm_compute. reflexivity.
  - reflexivity.
Defined.

Lemma BeginLogin_defaults_kept_witness :
  exists requestOptions sessionData w',
    webauthn.BeginLogin Fixture.CreateChallenge Fixture.rp Fixture.alice
      [Fixture.Scribble xff; Fixture.WithChallenge [x00]] Fixture.world
    = ((Some requestOptions, sessionData, None), w')
    /\ webauthn.Timeout requestOptions = 60000%Z.
Proof.
  destruct (BeginLogin_defaults_kept Fixture.CreateChallenge Fixture.rp Fixture.alice
              [Fixture.Scribble xff; Fixture.WithChallenge [x00]] Fixture.world
              _ _ eq_refl)
    as (requestOptions & sessionData & w' & Hrun & Htimeout & _).
  exists requestOptions, sessionData, w'. split; [exact Hrun|].
  apply Htimeout.
  constructor; [intros o w; reflexivity|].
  constructor; [intros o w; unfold Fixture.WithChallenge;
                destruct (Memory.alloc w [x00]); reflexivity|].
  constructor.
Defined.

(** ** Verify: every outcome *)

Section VerifyOutcomes.
Import protocol.



End VerifyOutcomes.
